(** * Campus-connect: realtime cache, services, statistics and offline downloads

    A shallow embedding of the TypeScript sources
      - src/services/postsService.ts   (module [PostsService])
      - src/hooks/usePosts.ts          (modules [UsePosts], [PostsHook])
      - src/services/statsService.ts   (module [StatsService])
      - src/hooks/useStats.ts          (modules [UseStats], [StatsHook])
      - src/context/AuthContext.tsx    (modules [AuthContext], [AuthFlows],
                                        [SignOut])
      - src/screens/AuthScreen.tsx     (module [AuthScreen])
      - src/screens/ELibraryScreen.tsx (modules [ELibraryScreen], [Library])
      - src/screens/FeedScreen.tsx     (module [FeedScreen])

    JavaScript objects are finite maps from property names to values, arrays
    are lists, [Set]s are finite sets (or duplicate-free lists where the
    iteration order is observable), and every [await] of a backend call takes
    the backend's answer as an explicit argument. *)

From Stdlib Require Import ZArith NArith List Lia.
From stdpp Require Import base option list gmap strings.
From stdpp Require Import pretty.

Local Open Scope Z_scope.

(** ** JavaScript values *)

Module Js.

(** A JavaScript string is a sequence of UTF-16 code units. *)
Abbreviation jsstring := (list N).

Fixpoint lit (s : string) : jsstring :=
  match s with
  | EmptyString => []
  | String c s' => Ascii.N_of_ascii c :: lit s'
  end.

(** Primitive values and object references.  A property that is absent reads
    as [undefined], which is [None] below. *)
Inductive value :=
  | VNull
  | VBool (b : bool)
  | VNum (z : Z)
  | VStr (s : jsstring)
  | VRef (r : positive).

#[global] Instance value_eq_dec : EqDecision value.
Proof. solve_decision. Defined.

Abbreviation obj := (gmap string value).

(** [o.k] *)
Definition get (o : obj) (k : string) : option value := o !! k.

(** [a === b] on primitives and references. *)
Definition strict_eq (a b : option value) : bool := bool_decide (a = b).

(** [{...a, ...b}]: the properties of [b] win. *)
Definition spread (a b : obj) : obj := b ∪ a.

(** A thrown value: an instance of [Error] with its message, or anything
    else (a primitive, or a plain object such as a backend error). *)
Inductive thrown :=
  | JsError (message : jsstring)
  | JsValue (v : option value)
  | JsObject (o : obj).

(** What an [await] produces: the promise resolves or rejects. *)
Inductive await (A : Type) :=
  | Resolved (a : A)
  | Rejected (e : thrown).
Arguments Resolved {A} a.
Arguments Rejected {A} e.

Definition bind {A B} (m : await A) (k : A → await B) : await B :=
  match m with
  | Resolved a => k a
  | Rejected e => Rejected e
  end.

(** [try { body } catch (e) { handler e }] *)
Definition try_catch {A} (body : await A) (handler : thrown → await A) : await A :=
  match body with
  | Resolved a => Resolved a
  | Rejected e => handler e
  end.

Definition throws {A} (m : await A) : Prop := ∃ e, m = Rejected e.

(** [ToBoolean]: what [if (v)], [!v] and [v || w] test.  [undefined], [null],
    [false], [0] and the empty string are falsy. *)
Definition to_boolean (v : option value) : bool :=
  match v with
  | None | Some VNull => false
  | Some (VBool b) => b
  | Some (VNum z) => negb (z =? 0)
  | Some (VStr s) => match s with [] => false | _ => true end
  | Some (VRef _) => true
  end.

(** The same of a caught value: objects, [Error]s among them, are truthy. *)
Definition thrown_to_boolean (e : thrown) : bool :=
  match e with
  | JsError _ | JsObject _ => true
  | JsValue v => to_boolean v
  end.

End Js.

Import Js.

Notation "x ←ₐ m ; k" := (Js.bind m (λ x, k))
  (at level 100, m at next level, right associativity, only parsing).

(** ** The backend client (supabase-js) as seen by the callers *)

Module Supabase.

(** [PostgrestError] *)
Record pg_error := PgError { code : jsstring; message : jsstring }.

(** [throw error] of a backend error object. *)
Definition as_thrown (e : pg_error) : thrown :=
  JsObject {[ "code" := VStr (code e); "message" := VStr (message e) ]}.

(** [{ data, error, count }] of a query builder. *)
Record response (A : Type) := Response {
  data : option A;
  error : option pg_error;
  count : option N
}.
Arguments Response {A} data error count.
Arguments data {A} r.
Arguments error {A} r.
Arguments count {A} r.

Abbreviation rows := (list obj).

End Supabase.

(** ** src/services/postsService.ts *)

Module PostsService.
Import Supabase.

(** The [error: any] of a service result: the backend's error object or the
    value caught by the [catch] block. *)
Inductive any_error :=
  | EPostgrest (e : pg_error)
  | ECaught (e : thrown).

(** [{ data, error }] *)
Record result (A : Type) := Result { data : option A; error : option any_error }.
Arguments Result {A} data error.
Arguments data {A} r.
Arguments error {A} r.

(** Truthiness of the [error] of a result, which is what [if (result.error)]
    tests: [null] is falsy, a backend error is an object, and a caught value
    is as [ToBoolean] has it. *)
Definition has_error (e : option any_error) : bool :=
  match e with
  | None => false
  | Some (EPostgrest _) => true
  | Some (ECaught e) => thrown_to_boolean e
  end.

(** [{ ...post, likes_count: 0, comments_count: 0, user_has_liked: false }] *)
Definition with_extras (post : obj) : obj :=
  <["user_has_liked" := VBool false]>
    (<["comments_count" := VNum 0]> (<["likes_count" := VNum 0]> post)).

(** The shared shape of [getAllPosts], [getPostsByType] and [getUserPosts]:
    one [select] whose answer is [q]. *)
Definition select_posts (q : await (response rows)) : await (result rows) :=
  try_catch
    (r ←ₐ q;
     match Supabase.error r with
     | Some e => Resolved (Result None (Some (EPostgrest e)))
     | None =>
         let postsWithExtras :=
           match Supabase.data r with
           | Some d => with_extras <$> d
           | None => []
           end in
         Resolved (Result (Some postsWithExtras) None)
     end)
    (λ e, Resolved (Result None (Some (ECaught e)))).

Definition getAllPosts := select_posts.
Definition getPostsByType (type : jsstring) := select_posts.
Definition getUserPosts (userId : jsstring) := select_posts.

(** The shared tail of [createPost] and [updatePost]: a mutation followed by
    [.select(...).single()], whose answer is [q]. *)
Definition mutate_single (q : await (response obj)) : await (result obj) :=
  try_catch
    (r ←ₐ q;
     match Supabase.error r with
     | Some e => Resolved (Result None (Some (EPostgrest e)))
     | None =>
         (* spreading [null] contributes no property *)
         let postWithExtras := with_extras (default ∅ (Supabase.data r)) in
         Resolved (Result (Some postWithExtras) None)
     end)
    (λ e, Resolved (Result None (Some (ECaught e)))).

Definition createPost (post : obj) := mutate_single.
Definition updatePost (postId : jsstring) (updates : obj) (userId : jsstring) :=
  mutate_single.

(** [{ success, error }] *)
Record outcome := Outcome { success : bool; failure : option any_error }.

Definition deletePost (postId userId : jsstring) (q : await (response unit))
  : await outcome :=
  try_catch
    (r ←ₐ q;
     match Supabase.error r with
     | Some e => Resolved (Outcome false (Some (EPostgrest e)))
     | None => Resolved (Outcome true None)
     end)
    (λ e, Resolved (Outcome false (Some (ECaught e)))).

(** [String.prototype.trim]: the code units it strips. *)
Definition is_space (c : N) : bool :=
  ((9 <=? c) && (c <=? 13) || (c =? 32) || (c =? 160) || (c =? 5760)
   || (8192 <=? c) && (c <=? 8202) || (c =? 8232) || (c =? 8233)
   || (c =? 8239) || (c =? 8287) || (c =? 12288) || (c =? 65279))%N.

Fixpoint trimStart (s : jsstring) : jsstring :=
  match s with
  | c :: s' => if is_space c then trimStart s' else s
  | [] => []
  end.

Definition trim (s : jsstring) : jsstring :=
  reverse (trimStart (reverse (trimStart s))).

(** [self.findIndex(p => p.id === post.id)] *)
Fixpoint findIndex (f : obj → bool) (self : rows) : Z :=
  match self with
  | [] => -1
  | p :: self' =>
      if f p then 0
      else let i := findIndex f self' in if i <? 0 then -1 else i + 1
  end.

(** [combinedPosts.filter((post, index, self) => index === self.findIndex(...))] *)
Definition uniquePosts (combinedPosts : rows) : rows :=
  snd <$>
    List.filter
      (λ '(index, post),
         bool_decide (Z.of_nat index =
           findIndex (λ p, strict_eq (get p "id") (get post "id")) combinedPosts))
      (imap (λ index post, (index, post)) combinedPosts).

(** [searchPosts]: [qAll] answers the query of [getAllPosts], [q] the
    title/content query, [qProfiles] the profile lookup and [qAuthors] the
    query by author ids. *)
Definition searchPosts (query : jsstring)
    (qAll q : await (response rows)) (qProfiles : await (response rows))
    (qAuthors : await (response rows)) : await (result rows) :=
  match trim query with
  | [] => getAllPosts qAll
  | _ =>
    try_catch
      (r ←ₐ q;
       match Supabase.error r with
       | Some e => Resolved (Result None (Some (EPostgrest e)))
       | None =>
           rp ←ₐ qProfiles;
           match Supabase.data rp with
           | Some (_ :: _) =>
               ra ←ₐ qAuthors;
               let combinedPosts :=
                 default [] (Supabase.data r) ++ default [] (Supabase.data ra) in
               Resolved (Result (Some (with_extras <$> uniquePosts combinedPosts)) None)
           | _ =>
               let postsWithExtras :=
                 match Supabase.data r with
                 | Some d => with_extras <$> d
                 | None => []
                 end in
               Resolved (Result (Some postsWithExtras) None)
           end
       end)
      (λ e, Resolved (Result None (Some (ECaught e))))
  end.

Record post_stats := PostStats {
  total_posts : nat;
  announcements : nat;
  events : nat;
  discussions : nat;
  help_requests : nat
}.

Definition count_type (t : string) (d : rows) : nat :=
  length (List.filter (λ p, strict_eq (get p "type") (Some (VStr (lit t)))) d).

Definition getPostStats (q : await (response rows)) : await (result post_stats) :=
  try_catch
    (r ←ₐ q;
     match Supabase.error r with
     | Some e => Resolved (Result None (Some (EPostgrest e)))
     | None =>
         match Supabase.data r with
         | None => Rejected (JsError (lit "Cannot read properties of null"))
         | Some d =>
             Resolved (Result (Some
               {| total_posts := length d;
                  announcements := count_type "announcement" d;
                  events := count_type "event" d;
                  discussions := count_type "discussion" d;
                  help_requests := count_type "help" d |}) None)
         end
     end)
    (λ e, Resolved (Result None (Some (ECaught e)))).

End PostsService.

(** ** The [posts] table behind the two ownership-constrained mutations

    The hosted backend is outside the repository.  What it does with the
    two requests follows the specification's glossary ("an update/delete
    query whose filter includes both the target id and the acting user's id,
    so unauthorized attempts affect zero rows server-side") and the
    documented answers of its REST layer. *)

Module Backend.
Import Supabase.

Abbreviation table := (list obj).

(** Modelled from the spec: the rows that pass both filters,
    [.eq('id', postId).eq('author_id', userId)]. *)
Definition hit (postId userId : jsstring) (row : obj) : bool :=
  bool_decide (row !! "id" = Some (VStr postId)
               ∧ row !! "author_id" = Some (VStr userId)).

(** Modelled from the spec: the error of [.single()] when the rows affected
    are not exactly one. *)
Definition no_single_row : pg_error :=
  PgError (lit "PGRST116")
          (lit "JSON object requested, multiple (or no) rows returned").

(** Modelled from the spec: the backend's side of
    [.update(updates).eq('id', postId).eq('author_id', userId).select().single()].
    The rows passing both filters are updated and the one updated row comes
    back; when they are not exactly one, nothing changes and the answer is
    the error above.  The joined [profiles] column is left out. *)
Definition update_posts (updates : obj) (postId userId : jsstring) (t : table)
  : table * response obj :=
  match List.filter (hit postId userId) t with
  | [row] =>
      ((λ row, if hit postId userId row then spread row updates else row) <$> t,
       Response (Some (spread row updates)) None None)
  | _ => (t, Response None (Some no_single_row) None)
  end.

(** Modelled from the spec: the backend's side of
    [.delete().eq('id', postId).eq('author_id', userId)].  The rows passing
    both filters are removed; without a [select] the answer carries neither
    data nor error, whatever the number of rows removed. *)
Definition delete_posts (postId userId : jsstring) (t : table)
  : table * response unit :=
  (List.filter (λ row, negb (hit postId userId row)) t, Response None None None).

End Backend.

(** ** src/hooks/usePosts.ts *)

Module UsePosts.
Import Supabase.

(** The realtime payload [{ eventType, new, old }]. *)
Inductive event_type := INSERT | UPDATE | DELETE.

Record payload := Payload { eventType : event_type; new : obj; old : obj }.

(** [PostType | 'all'] *)
Inductive type_filter := all | of_type (t : jsstring).

(** The three [useState] cells of the hook. *)
Record state := State {
  posts : rows;
  loading : bool;
  error : option string
}.

Definition setPosts (f : rows → rows) (s : state) : state :=
  {| posts := f (posts s); loading := loading s; error := error s |}.
Definition setLoading (b : bool) (s : state) : state :=
  {| posts := posts s; loading := b; error := error s |}.
Definition setError (e : option string) (s : state) : state :=
  {| posts := posts s; loading := loading s; error := e |}.

(** [loadPosts(type)] runs in two turns of the event loop.  Up to its
    [await]: *)
Definition loadPosts_begin (s : state) : state :=
  setError None (setLoading true s).

(** From the [await] on, once the backend has answered [q] to the query: *)
Definition loadPosts_end (type : type_filter) (q : await (response rows))
    (s : state) : state :=
  let fetched :=
    match type with
    | all => PostsService.getAllPosts q
    | of_type t => PostsService.getPostsByType t q
    end in
  let s :=
    match fetched with
    | Resolved result =>
        if PostsService.has_error (PostsService.error result)
        then setError (Some "Failed to load posts") s
        else setPosts (λ _, default [] (PostsService.data result)) s
    | Rejected _ => setError (Some "An unexpected error occurred") s
    end in
  setLoading false s.

(** The whole of it, when nothing runs in between. *)
Definition loadPosts (type : type_filter) (q : await (response rows))
    (s : state) : state :=
  loadPosts_end type q (loadPosts_begin s).

Definition refreshPosts (initialType : type_filter) := loadPosts initialType.

(** [{ success, error? }] of the hook's mutations. *)
Record mutation := Mutation { success : bool; reason : option string }.

Definition createPost (postData : obj) (q : await (response obj)) (s : state)
  : state * mutation :=
  match PostsService.createPost postData q with
  | Resolved result =>
      if PostsService.has_error (PostsService.error result)
      then (s, Mutation false (Some "Failed to create post"))
      else
        (match PostsService.data result with
         | Some d => setPosts (λ prev, d :: prev) s
         | None => s
         end, Mutation true None)
  | Rejected _ => (s, Mutation false (Some "An unexpected error occurred"))
  end.

Definition updatePost (postId : jsstring) (updates : obj) (userId : jsstring)
    (q : await (response obj)) (s : state) : state * mutation :=
  match PostsService.updatePost postId updates userId q with
  | Resolved result =>
      if PostsService.has_error (PostsService.error result)
      then (s, Mutation false (Some "Failed to update post"))
      else
        (match PostsService.data result with
         | Some d =>
             setPosts (λ prev,
               (λ post, if strict_eq (get post "id") (Some (VStr postId))
                        then d else post) <$> prev) s
         | None => s
         end, Mutation true None)
  | Rejected _ => (s, Mutation false (Some "An unexpected error occurred"))
  end.

Definition deletePost (postId userId : jsstring) (q : await (response unit))
    (s : state) : state * mutation :=
  match PostsService.deletePost postId userId q with
  | Resolved result =>
      if negb (PostsService.success result)
      then (s, Mutation false (Some "Failed to delete post"))
      else (setPosts (λ prev,
              List.filter (λ post, negb (strict_eq (get post "id") (Some (VStr postId))))
                          prev) s,
            Mutation true None)
  | Rejected _ => (s, Mutation false (Some "An unexpected error occurred"))
  end.

(** The [UPDATE] case: [prev.map(post => post.id === payload.new.id
    ? { ...post, ...payload.new } : post)] *)
Definition merge_update (new : obj) (post : obj) : obj :=
  if strict_eq (get post "id") (get new "id") then spread post new else post.

(** The [DELETE] case: [prev.filter(post => post.id !== payload.old.id)] *)
Definition keeps (old : obj) (post : obj) : bool :=
  negb (strict_eq (get post "id") (get old "id")).

(** The subscription callback.  On [INSERT] it calls [refreshPosts()]
    without awaiting it: the callback returns when the refresh reaches its
    [await]. *)
Definition onPostChange (p : payload) (s : state) : state :=
  match eventType p with
  | INSERT => loadPosts_begin s
  | UPDATE => setPosts (fmap (merge_update (new p))) s
  | DELETE => setPosts (List.filter (keeps (old p))) s
  end.

(** What reaches the hook, in the order the host runs the callbacks: a
    realtime event, or the answer [q] to the query of a refresh under way. *)
Inductive action :=
  | Change (p : payload)
  | Refreshed (q : await (response rows)).

Definition act (initialType : type_filter) (s : state) (a : action) : state :=
  match a with
  | Change p => onPostChange p s
  | Refreshed q => loadPosts_end initialType q s
  end.

Definition deliver (initialType : type_filter) (acts : list action) (s : state)
  : state :=
  foldl (act initialType) s acts.

End UsePosts.

(** ** src/services/statsService.ts *)

Module StatsService.
Import Supabase.

Record UserStats := Stats {
  filesDownloaded : Z;
  eventsAttended : Z;
  monthsActive : Z
}.

(** A subscribed callback, by identity. *)
Abbreviation listener := nat.

(** The requests the service sends to the backend. *)
Inductive request :=
  | CountDownloads (user_id : jsstring)
  | CountEventAttendances (user_id : jsstring)
  | InsertDownload (user_id : jsstring) (file_id : option jsstring)
                   (file_name file_type : jsstring)
  | InsertEventAttendance (user_id event_id event_name : jsstring)
  | DeleteEventAttendance (user_id event_id : jsstring).

(** The three fields of the singleton, followed by two observations of what
    it did so far, oldest first: the callback invocations ([delivered]) and
    the requests sent ([sent]).  [listeners] is a JavaScript [Set]: no
    repetition, iterated in insertion order. *)
Record service := Service {
  listeners : list listener;
  currentStats : option UserStats;
  userId : option jsstring;
  delivered : list (listener * UserStats);
  sent : list request
}.

(** [new StatsService()] *)
Definition statsService : service := Service [] None None [] [].

(** [this.listeners.add(callback)] *)
Definition subscribe (callback : listener) (t : service) : service :=
  {| listeners :=
       if bool_decide (callback ∈ listeners t) then listeners t
       else listeners t ++ [callback];
     currentStats := currentStats t;
     userId := userId t;
     delivered := delivered t;
     sent := sent t |}.

(** The function [subscribe] returns: [this.listeners.delete(callback)] *)
Definition unsubscribe (callback : listener) (t : service) : service :=
  {| listeners :=
       List.filter (λ l, negb (bool_decide (l = callback))) (listeners t);
     currentStats := currentStats t;
     userId := userId t;
     delivered := delivered t;
     sent := sent t |}.

Definition notify (stats : UserStats) (t : service) : service :=
  {| listeners := listeners t;
     currentStats := Some stats;
     userId := userId t;
     delivered :=
       delivered t ++ ((λ callback, (callback, stats)) <$> listeners t);
     sent := sent t |}.

Definition getCurrentStats (t : service) : option UserStats := currentStats t.

Definition setUserId (u : jsstring) (t : service) : service :=
  {| listeners := listeners t;
     currentStats := currentStats t;
     userId := Some u;
     delivered := delivered t;
     sent := sent t |}.

Definition send (rs : list request) (t : service) : service :=
  {| listeners := listeners t;
     currentStats := currentStats t;
     userId := userId t;
     delivered := delivered t;
     sent := sent t ++ rs |}.

(** [1000 * 60 * 60 * 24 * 30] *)
Definition month_ms : Z := 1000 * 60 * 60 * 24 * 30.

(** [loadStats(userId, profileCreatedAt)].  [createdAt] and [now] are the
    [getTime()] of the two dates, in milliseconds (a [profileCreatedAt] that
    does not parse, whose [getTime()] is [NaN], is outside the model; on
    such integers [Math.floor] of the quotient is the floored division).
    The two count queries are awaited together and answer [q].  The [catch]
    block rethrows. *)
Definition loadStats (uid : jsstring) (createdAt now : Z)
    (q : await (response unit * response unit)) (t : service)
  : service * await UserStats :=
  let t := setUserId uid t in
  let monthsActive := Z.max 1 ((now - createdAt) / month_ms) in
  let t := send [CountDownloads uid; CountEventAttendances uid] t in
  match q with
  | Resolved (downloadsResult, eventsResult) =>
      let stats :=
        {| filesDownloaded := default 0 (Z.of_N <$> count downloadsResult);
           eventsAttended := default 0 (Z.of_N <$> count eventsResult);
           monthsActive := monthsActive |} in
      (notify stats t, Resolved stats)
  | Rejected error => (t, try_catch (Rejected error) (λ error, Rejected error))
  end.

(** The common shape of [recordDownload], [recordEventAttendance] and
    [removeEventAttendance]: one mutation [r] answering [q]; [if (error)
    throw error]; then the cached counters, if any, replaced by [bump] of
    them.  The [catch] block rethrows. *)
Definition record (r : request) (bump : UserStats → UserStats)
    (q : await (response unit)) (t : service) : service * await unit :=
  let t := send [r] t in
  match q with
  | Resolved answer =>
      match Supabase.error answer with
      | Some error =>
          (t, try_catch (Rejected (as_thrown error)) (λ error, Rejected error))
      | None =>
          (match currentStats t with
           | Some cur => notify (bump cur) t
           | None => t
           end, Resolved ())
      end
  | Rejected error => (t, try_catch (Rejected error) (λ error, Rejected error))
  end.

Definition recordDownload (uid fileName fileType : jsstring)
    (fileId : option jsstring) :=
  record (InsertDownload uid fileId fileName fileType)
    (λ cur, {| filesDownloaded := filesDownloaded cur + 1;
               eventsAttended := eventsAttended cur;
               monthsActive := monthsActive cur |}).

Definition recordEventAttendance (uid eventId eventName : jsstring) :=
  record (InsertEventAttendance uid eventId eventName)
    (λ cur, {| filesDownloaded := filesDownloaded cur;
               eventsAttended := eventsAttended cur + 1;
               monthsActive := monthsActive cur |}).

Definition removeEventAttendance (uid eventId : jsstring) :=
  record (DeleteEventAttendance uid eventId)
    (λ cur, {| filesDownloaded := filesDownloaded cur;
               eventsAttended := Z.max 0 (eventsAttended cur - 1);
               monthsActive := monthsActive cur |}).

Definition refreshStats (t : service) : option UserStats :=
  match userId t with
  | None => None
  | Some _ => currentStats t
  end.

Definition clear (t : service) : service :=
  {| listeners := [];
     currentStats := None;
     userId := None;
     delivered := delivered t;
     sent := sent t |}.

(** What the clients of the singleton do to it. *)
Inductive op :=
  | Subscribe (callback : listener)
  | Unsubscribe (callback : listener)
  | LoadStats (uid : jsstring) (createdAt now : Z)
              (q : await (response unit * response unit))
  | RecordDownload (uid fileName fileType : jsstring) (fileId : option jsstring)
                   (q : await (response unit))
  | RecordEventAttendance (uid eventId eventName : jsstring)
                          (q : await (response unit))
  | RemoveEventAttendance (uid eventId : jsstring) (q : await (response unit))
  | Clear.

Definition step (t : service) (o : op) : service :=
  match o with
  | Subscribe c => subscribe c t
  | Unsubscribe c => unsubscribe c t
  | LoadStats u c n q => (loadStats u c n q t).1
  | RecordDownload u f ty i q => (recordDownload u f ty i q t).1
  | RecordEventAttendance u e n q => (recordEventAttendance u e n q t).1
  | RemoveEventAttendance u e q => (removeEventAttendance u e q t).1
  | Clear => clear t
  end.

Definition run (ops : list op) (t : service) : service := foldl step t ops.

End StatsService.

(** ** src/hooks/useStats.ts *)

Module UseStats.
Import Supabase.

(** The hook's [recordDownload]: it throws when [!userId] (no id, or the
    empty string), and passes on whatever the singleton throws. *)
Definition recordDownload (uid : option jsstring) (fileName fileType : jsstring)
    (fileId : option jsstring) (q : await (response unit))
    (t : StatsService.service) : StatsService.service * await unit :=
  match uid with
  | Some (c :: u) =>
      let '(t, r) :=
        StatsService.recordDownload (c :: u) fileName fileType fileId q t in
      (t, try_catch r (λ error, Rejected error))
  | _ => (t, Rejected (JsError (lit "User ID not available")))
  end.

End UseStats.

(** ** src/context/AuthContext.tsx *)

Module AuthContext.

Record User := { id : jsstring; email_confirmed_at : option jsstring }.

Record Session := { access_token : jsstring; session_user : User }.

(** [{ data: { user, session }, error }] of [supabase.auth.signUp]. *)
Record AuthResponse := {
  data_user : option User;
  data_session : option Session;
  auth_error : option jsstring   (* the error's [message] *)
}.

Record AuthResult := {
  success : bool;
  error : option jsstring;
  needsEmailConfirmation : option bool;
  message : option jsstring
}.

(** The [useState] cells of the provider that [register] can reach. *)
Record state := {
  user : option User;
  session : option Session;
  loading : bool
}.

Definition setLoading (b : bool) (s : state) : state :=
  {| user := user s; session := session s; loading := b |}.

(** [!!(user && session)] *)
Definition isAuthenticated (s : state) : bool :=
  bool_decide (is_Some (user s)) && bool_decide (is_Some (session s)).

(** Truthiness of an optional string. *)
Definition truthy (v : option jsstring) : bool :=
  match v with
  | None | Some [] => false
  | Some _ => true
  end.

Definition confirm_message : jsstring :=
  lit "Registration successful! Please check your email and click the confirmation link to activate your account.".

Definition login_message : jsstring :=
  lit "Registration successful! You can now log in.".

(** [register(email, password, profileData)]; [q] answers the [signUp]. *)
Definition register (q : await AuthResponse) (s : state)
  : state * await AuthResult :=
  let s := setLoading true s in
  let result :=
    try_catch
      (r ←ₐ q;
       match auth_error r with
       | Some m =>
           Resolved {| success := false; error := Some m;
                       needsEmailConfirmation := None; message := None |}
       | None =>
           match data_user r with
           | None =>
               Resolved {| success := false;
                           error := Some (lit "Registration failed - no user created");
                           needsEmailConfirmation := None; message := None |}
           | Some u =>
               let needsConfirmation :=
                 negb (truthy (email_confirmed_at u))
                 && negb (bool_decide (is_Some (data_session r))) in
               if needsConfirmation then
                 Resolved {| success := true; error := None;
                             needsEmailConfirmation := Some true;
                             message := Some confirm_message |}
               else
                 Resolved {| success := true; error := None;
                             needsEmailConfirmation := Some false;
                             message := Some login_message |}
           end
       end)
      (λ e,
         Resolved {| success := false;
                     error := Some match e with
                                   | JsError m => m
                                   | _ => lit "Registration failed"
                                   end;
                     needsEmailConfirmation := None; message := None |}) in
  (setLoading false s, result).

End AuthContext.

(** ** src/screens/ELibraryScreen.tsx *)

Module ELibraryScreen.
Import Supabase.

Record LibraryFile := {
  id : jsstring;
  name : jsstring;
  size : Z;
  type : jsstring;
  category : jsstring;
  url : jsstring;
  created_at : jsstring;
  uploader_id : jsstring;
  file_format : option jsstring
}.

(** The class [[a-zA-Z0-9.]] *)
Definition in_class (c : N) : bool :=
  ((97 <=? c) && (c <=? 122) || (65 <=? c) && (c <=? 90)
   || (48 <=? c) && (c <=? 57) || (c =? 46))%N.

(** [name.replace(/[^a-zA-Z0-9.]/g, '_')] *)
Definition sanitize (name : jsstring) : jsstring :=
  (λ c, if in_class c then c else 95%N) <$> name.

(** [`${file.id}_${file.name.replace(...)}`] *)
Definition fileName (file : LibraryFile) : jsstring :=
  id file ++ lit "_" ++ sanitize (name file).

(** The buttons of the confirmation dialog, or its dismissal. *)
Inductive button := Cancel | Download | Dismiss.

(** What the screen holds and what the device holds: the two [Set] cells,
    the alerts shown so far, the local files by path, the [downloadAsync]
    calls made so far (url, local path), and the statistics singleton. *)
Record world := {
  downloadedFiles : gset jsstring;
  downloadingFiles : gset jsstring;
  alerts : list (jsstring * jsstring);
  disk : gmap jsstring (list N);
  transfers : list (jsstring * jsstring);
  stats : StatsService.service
}.

(** What the outside answers during one [handleDownload]: the button
    pressed, [getInfoAsync(downloadDir).exists], [makeDirectoryAsync],
    [downloadAsync] (its status and the bytes it left at the local path) and
    the backend's answer to the insert into [downloads]. *)
Record answers := {
  pressed : button;
  dirInfo : await bool;
  madeDir : await unit;
  downloadResult : await (Z * list N);
  insertAnswer : await (response unit)
}.

Definition alert (title message : jsstring) (w : world) : world :=
  {| downloadedFiles := downloadedFiles w;
     downloadingFiles := downloadingFiles w;
     alerts := alerts w ++ [(title, message)];
     disk := disk w; transfers := transfers w; stats := stats w |}.

Definition setDownloadedFiles (f : gset jsstring → gset jsstring) (w : world)
  : world :=
  {| downloadedFiles := f (downloadedFiles w);
     downloadingFiles := downloadingFiles w;
     alerts := alerts w;
     disk := disk w; transfers := transfers w; stats := stats w |}.

Definition setDownloadingFiles (f : gset jsstring → gset jsstring) (w : world)
  : world :=
  {| downloadedFiles := downloadedFiles w;
     downloadingFiles := f (downloadingFiles w);
     alerts := alerts w;
     disk := disk w; transfers := transfers w; stats := stats w |}.

Definition start_transfer (from to : jsstring) (w : world) : world :=
  {| downloadedFiles := downloadedFiles w;
     downloadingFiles := downloadingFiles w;
     alerts := alerts w;
     disk := disk w; transfers := transfers w ++ [(from, to)];
     stats := stats w |}.

Definition write (path : jsstring) (bytes : list N) (w : world) : world :=
  {| downloadedFiles := downloadedFiles w;
     downloadingFiles := downloadingFiles w;
     alerts := alerts w;
     disk := <[path := bytes]> (disk w); transfers := transfers w;
     stats := stats w |}.

Definition setStats (t : StatsService.service) (w : world) : world :=
  {| downloadedFiles := downloadedFiles w;
     downloadingFiles := downloadingFiles w;
     alerts := alerts w;
     disk := disk w; transfers := transfers w; stats := t |}.

Definition failed : world → world :=
  alert (lit "Error") (lit "Failed to download file").

Section screen.

(** [FileSystem.documentDirectory] and [user?.id]. *)
Variable documentDirectory : jsstring.
Variable userId : option jsstring.

Definition downloadDir : jsstring := documentDirectory ++ lit "downloads/".

(** The [onPress] of the dialog's Download button. *)
Definition onPressDownload (file : LibraryFile) (a : answers) (w : world)
  : world :=
  let w := setDownloadingFiles (λ prev, prev ∪ {[ id file ]}) w in
  let localUri := downloadDir ++ fileName file in
  let w :=
    match dirInfo a with
    | Rejected _ => failed w
    | Resolved exists_ =>
        match (if exists_ then Resolved () else madeDir a) with
        | Rejected _ => failed w
        | Resolved _ =>
            let w := start_transfer (url file) localUri w in
            match downloadResult a with
            | Rejected _ => failed w
            | Resolved (status, bytes) =>
                let w := write localUri bytes w in
                if status =? 200 then
                  let w := setDownloadedFiles (λ prev, prev ∪ {[ fileName file ]}) w in
                  let '(t, r) :=
                    UseStats.recordDownload userId (name file) (type file)
                      (Some (id file)) (insertAnswer a) (stats w) in
                  let w := setStats t w in
                  match r with
                  | Resolved _ =>
                      alert (lit "Success")
                            (lit "File downloaded for offline access!") w
                  | Rejected _ => failed w
                  end
                else failed w
            end
        end
    end in
  setDownloadingFiles (λ prev, prev ∖ {[ id file ]}) w.

Definition handleDownload (file : LibraryFile) (a : answers) (w : world)
  : world :=
  if bool_decide (fileName file ∈ downloadedFiles w) then
    alert (lit "Already Downloaded")
          (lit "This file is already available offline.") w
  else
    let w :=
      alert (lit "Download")
            (lit "Download " ++ [34%N] ++ name file ++ [34%N]
             ++ lit " for offline access?") w in
    match pressed a with
    | Download => onPressDownload file a w
    | _ => w
    end.

End screen.

End ELibraryScreen.

(** ** Reading a delivered sequence against the last collection loaded *)

Module PostsCache.
Import Supabase UsePosts.

Definition id_of (post : obj) : option value := get post "id".

Definition ids (l : rows) : list (option value) := id_of <$> l.

(** The collection an action installs: a refresh that ends without an
    error it can see replaces the cache by the rows fetched (by no rows at
    all when its call failed with a falsy value); nothing else installs
    one. *)
Definition installs (initialType : type_filter) (a : action) : option rows :=
  match a with
  | Refreshed q =>
      let s := loadPosts_end initialType q (State [] true None) in
      match error s with
      | None => Some (posts s)
      | Some _ => None
      end
  | Change _ => None
  end.

(** The events that reached the cache. *)
Definition event_of (a : action) : list payload :=
  match a with
  | Change p => [p]
  | Refreshed _ => []
  end.

(** The last collection installed ([base], the cache itself when there was
    none) and the events delivered since ([tail]). *)
Fixpoint rebase (initialType : type_filter) (acts : list action)
    (base : rows) (tail : list payload) : rows * list payload :=
  match acts with
  | [] => (base, tail)
  | a :: acts' =>
      match installs initialType a with
      | Some fresh => rebase initialType acts' fresh []
      | None => rebase initialType acts' base (tail ++ event_of a)
      end
  end.

Definition is_delete_of (i : option value) (p : payload) : bool :=
  match eventType p with
  | DELETE => strict_eq i (id_of (old p))
  | _ => false
  end.

Definition is_update_of (i : option value) (p : payload) : bool :=
  match eventType p with
  | UPDATE => strict_eq i (id_of (new p))
  | _ => false
  end.

(** Some [DELETE] for id [i] was delivered. *)
Definition deleted (i : option value) (tail : list payload) : bool :=
  existsb (is_delete_of i) tail.

(** The [UPDATE] payloads delivered for id [i], oldest first. *)
Definition updates_for (i : option value) (tail : list payload) : list obj :=
  new <$> List.filter (is_update_of i) tail.

(** An entry shallow-merged with every [UPDATE] payload of its id. *)
Definition patch (tail : list payload) (post : obj) : obj :=
  foldl spread post (updates_for (id_of post) tail).

Definition live (tail : list payload) (post : obj) : bool :=
  negb (deleted (id_of post) tail).

(** The entries of [base] that no [DELETE] hit, in their order, each patched. *)
Definition settle (tail : list payload) (base : rows) : rows :=
  patch tail <$> List.filter (live tail) base.

(** Some [INSERT] was delivered, so that a refresh was started. *)
Definition refreshing (tail : list payload) : bool :=
  existsb (λ p, match eventType p with INSERT => true | _ => false end) tail.

End PostsCache.

(** ** What is expected of the statistics singleton *)

Module StatsInvariant.
Import StatsService.

(** The counters are in range. *)
Definition in_range (st : UserStats) : Prop :=
  0 ≤ filesDownloaded st ∧ 0 ≤ eventsAttended st ∧ 1 ≤ monthsActive st.

(** The cached value, when there is one, and every value handed to a
    listener so far are in range. *)
Definition stats_ok (t : service) : Prop :=
  (∀ st, getCurrentStats t = Some st → in_range st)
  ∧ (∀ l st, (l, st) ∈ delivered t → in_range st).

(** The callback invocations made since the singleton was in state [t0]. *)
Definition delivered_since (t0 t : service) : list (listener * UserStats) :=
  drop (length (delivered t0)) (delivered t).

End StatsInvariant.

(** ** What is expected of the services and of a download *)

Module Contract.
Import Supabase.

(** A [{ data, error }] carries exactly one of the two: data and a [null]
    error, or no data and an error that a caller testing [result.error]
    sees. *)
Definition discriminated {A} (r : PostsService.result A) : Prop :=
  (is_Some (PostsService.data r) ∧ PostsService.error r = None)
  ∨ (PostsService.data r = None
     ∧ PostsService.has_error (PostsService.error r) = true).

(** A [{ success, error }] carries an error exactly when it failed. *)
Definition discriminated_outcome (r : PostsService.outcome) : Prop :=
  (PostsService.success r = true ∧ PostsService.failure r = None)
  ∨ (PostsService.success r = false
     ∧ PostsService.has_error (PostsService.failure r) = true).

(** The call itself failed, with a falsy value ([undefined], [null],
    [false], [0] or the empty string). *)
Definition falsy_fault {A} (q : await A) : Prop :=
  ∃ e, q = Rejected e ∧ thrown_to_boolean e = false.

(** The result carries neither data nor an error that can be seen. *)
Definition empty_result {A} (r : PostsService.result A) : Prop :=
  PostsService.data r = None
  ∧ PostsService.has_error (PostsService.error r) = false.


(** The function answering [q] returns: a discriminated result, unless the
    call failed with a falsy value, and then a result that carries neither
    data nor an error that can be seen. *)
Definition settles {A B} (q : await B) (m : await (PostsService.result A))
  : Prop :=
  ∃ r, m = Resolved r
       ∧ ((¬ falsy_fault q ∧ discriminated r)
          ∨ (falsy_fault q ∧ empty_result r)).

Definition settles_outcome {B} (q : await B) (m : await PostsService.outcome)
  : Prop :=
  ∃ r, m = Resolved r
       ∧ ((¬ falsy_fault q ∧ discriminated_outcome r)
          ∨ (falsy_fault q ∧ PostsService.success r = false
             ∧ PostsService.has_error (PostsService.failure r) = false)).

(** The backend answered, and reported no error. *)
Definition accepted {A} (q : await (response A)) : Prop :=
  ∃ answer, q = Resolved answer ∧ Supabase.error answer = None.

(** The backend answered with an error, or the call failed with a truthy
    value: the failures a caller testing [result.error] sees. *)
Definition refused {A} (q : await (response A)) : Prop :=
  (∃ answer e, q = Resolved answer ∧ Supabase.error answer = Some e)
  ∨ (∃ e, q = Rejected e ∧ thrown_to_boolean e = true).

(** What a function that rethrows hands to its caller for the answer [q]:
    the backend's error object, or the fault of the call. *)
Definition fault_of {A} (q : await (response A)) (e : thrown) : Prop :=
  (∃ answer pe, q = Resolved answer ∧ Supabase.error answer = Some pe
                ∧ e = as_thrown pe)
  ∨ q = Rejected e.

(** The download directory is there when the transfer starts. *)
Definition directory_ready (a : ELibraryScreen.answers) : Prop :=
  ELibraryScreen.dirInfo a = Resolved true
  ∨ (ELibraryScreen.dirInfo a = Resolved false
     ∧ ELibraryScreen.madeDir a = Resolved ()).

End Contract.

(** ** Sample data *)

Module Sample.
Import Supabase.

Definition notes (i : string) : ELibraryScreen.LibraryFile :=
  {| ELibraryScreen.id := lit i;
     ELibraryScreen.name := lit "Week 1: notes.pdf";
     ELibraryScreen.size := 2048;
     ELibraryScreen.type := lit "application/pdf";
     ELibraryScreen.category := lit "Notes";
     ELibraryScreen.url := lit "https://files.example/notes.pdf";
     ELibraryScreen.created_at := lit "2025-09-01T10:00:00Z";
     ELibraryScreen.uploader_id := lit "u7";
     ELibraryScreen.file_format := Some (lit "PDF") |}.

Definition empty_screen : ELibraryScreen.world :=
  {| ELibraryScreen.downloadedFiles := ∅;
     ELibraryScreen.downloadingFiles := ∅;
     ELibraryScreen.alerts := [];
     ELibraryScreen.disk := ∅;
     ELibraryScreen.transfers := [];
     ELibraryScreen.stats := StatsService.statsService |}.

Definition transfer_answers (status : Z) : ELibraryScreen.answers :=
  {| ELibraryScreen.pressed := ELibraryScreen.Download;
     ELibraryScreen.dirInfo := Resolved false;
     ELibraryScreen.madeDir := Resolved ();
     ELibraryScreen.downloadResult := Resolved (status, [37; 80; 68; 70]%N);
     ELibraryScreen.insertAnswer := Resolved (Response None None None) |}.

End Sample.

(** ** Reading the search results *)

Module PostsSearch.
Import Supabase PostsCache.

(** The posts of [l] whose id is neither in [seen] nor carried by an
    earlier post of [l], in their order. *)
Fixpoint first_by_id (seen : list (option value)) (l : rows) : rows :=
  match l with
  | [] => []
  | x :: l' =>
      if bool_decide (id_of x ∈ seen) then first_by_id seen l'
      else x :: first_by_id (seen ++ [id_of x]) l'
  end.

(** The four values of the [type] column. *)
Definition post_types : list string :=
  ["announcement"; "event"; "discussion"; "help"].

Definition typed (p : obj) : Prop :=
  ∃ t, t ∈ post_types ∧ get p "type" = Some (VStr (lit t)).

(** The rows an answer carries, if any, have one row per id. *)
Definition distinct_rows (q : await (response rows)) : Prop :=
  ∀ r d, q = Resolved r → Supabase.data r = Some d → NoDup (ids d).

(** Only code units that [trim] strips. *)
Definition blank (s : jsstring) : Prop :=
  Forall (λ c, PostsService.is_space c = true) s.

End PostsSearch.

(** ** src/hooks/usePosts.ts, the rest of the hook *)

Module PostsHook.
Import Supabase UsePosts.

(** [filterPostsByType(type)] *)
Definition filterPostsByType (type : type_filter) (s : state) : rows :=
  match type with
  | all => posts s
  | of_type t =>
      List.filter (λ post, strict_eq (get post "type") (Some (VStr t))) (posts s)
  end.

(** The hook's [searchPosts(query)]; the four answers are those of
    [PostsService.searchPosts]. *)
Definition searchPosts (query : jsstring)
    (qAll q qProfiles qAuthors : await (response rows)) (s : state) : state :=
  let s := setError None (setLoading true s) in
  let s :=
    match PostsService.searchPosts query qAll q qProfiles qAuthors with
    | Resolved result =>
        if PostsService.has_error (PostsService.error result)
        then setError (Some "Failed to search posts") s
        else setPosts (λ _, default [] (PostsService.data result)) s
    | Rejected _ => setError (Some "An unexpected error occurred") s
    end in
  setLoading false s.

End PostsHook.

(** ** src/hooks/useStats.ts, the rest of the hook *)

Module StatsHook.
Import Supabase StatsService.

(** The three [useState] cells of [useStats]. *)
Record state := State {
  stats : option UserStats;
  loading : bool;
  error : option jsstring
}.

(** [!v] for an optional string: it is absent or empty. *)
Definition missing (v : option jsstring) : bool :=
  match v with
  | None | Some [] => true
  | Some (_ :: _) => false
  end.

(** [err instanceof Error ? err.message : 'Failed to load stats'] *)
Definition load_error (err : thrown) : jsstring :=
  match err with
  | JsError m => m
  | _ => lit "Failed to load stats"
  end.

(** The hook's [loadStats]; [createdAt] is the [getTime()] of
    [profileCreatedAt]. *)
Definition loadStats (userId profileCreatedAt : option jsstring)
    (createdAt now : Z) (q : await (response unit * response unit))
    (h : state) (t : service) : state * service :=
  match userId, profileCreatedAt with
  | Some (c :: u), Some (_ :: _) =>
      let '(t, r) := StatsService.loadStats (c :: u) createdAt now q t in
      (match r with
       | Resolved newStats => State (Some newStats) false None
       | Rejected err => State (stats h) false (Some (load_error err))
       end, t)
  | _, _ => (State (stats h) false (error h), t)
  end.

(** The hook's [recordEventAttendance] and [removeEventAttendance]: like
    [recordDownload], they throw when [!userId] and pass on what the
    singleton throws. *)
Definition recordEventAttendance (userId : option jsstring)
    (eventId eventName : jsstring) (q : await (response unit)) (t : service)
  : service * await unit :=
  match userId with
  | Some (c :: u) =>
      let '(t, r) :=
        StatsService.recordEventAttendance (c :: u) eventId eventName q t in
      (t, try_catch r (λ error, Rejected error))
  | _ => (t, Rejected (JsError (lit "User ID not available")))
  end.

Definition removeEventAttendance (userId : option jsstring)
    (eventId : jsstring) (q : await (response unit)) (t : service)
  : service * await unit :=
  match userId with
  | Some (c :: u) =>
      let '(t, r) := StatsService.removeEventAttendance (c :: u) eventId q t in
      (t, try_catch r (λ error, Rejected error))
  | _ => (t, Rejected (JsError (lit "User ID not available")))
  end.

End StatsHook.

(** ** String methods and regular expressions of the platform *)

Module Text.

(** [s.startsWith(p)] *)
Fixpoint startsWith (s p : jsstring) {struct p} : bool :=
  match p, s with
  | [], _ => true
  | c :: p', d :: s' => (c =? d)%N && startsWith s' p'
  | _ :: _, [] => false
  end.

(** [s.includes(needle)] *)
Fixpoint includes (s needle : jsstring) : bool :=
  startsWith s needle
  || match s with
     | [] => false
     | _ :: s' => includes s' needle
     end.

(** [s.split(sep).pop()] for a one-unit separator: what follows the last
    [sep], or all of [s] when there is none. *)
Fixpoint last_segment (sep : N) (s : jsstring) : jsstring :=
  match s with
  | [] => []
  | c :: s' =>
      if existsb (N.eqb sep) s' then last_segment sep s'
      else if (c =? sep)%N then s' else s
  end.

(** Regular expressions over code units, as far as the patterns of the
    application go: classes, sequence, alternative, iteration. *)
Inductive regex :=
  | Void
  | Eps
  | Class (p : N → bool)
  | Cat (r1 r2 : regex)
  | Alt (r1 r2 : regex)
  | Star (r : regex).

(** [r+] *)
Definition plus (r : regex) : regex := Cat r (Star r).

Fixpoint nullable (r : regex) : bool :=
  match r with
  | Void => false
  | Eps => true
  | Class _ => false
  | Cat r1 r2 => nullable r1 && nullable r2
  | Alt r1 r2 => nullable r1 || nullable r2
  | Star _ => true
  end.

(** What is left of [r] once it has read [c]. *)
Fixpoint deriv (c : N) (r : regex) : regex :=
  match r with
  | Void => Void
  | Eps => Void
  | Class p => if p c then Eps else Void
  | Cat r1 r2 =>
      if nullable r1 then Alt (Cat (deriv c r1) r2) (deriv c r2)
      else Cat (deriv c r1) r2
  | Alt r1 r2 => Alt (deriv c r1) (deriv c r2)
  | Star r0 => Cat (deriv c r0) (Star r0)
  end.

(** [/^r$/.test(s)] *)
Definition test (r : regex) (s : jsstring) : bool :=
  nullable (foldl (λ r c, deriv c r) r s).

(** The strings of [r]. *)
Inductive matches : regex → jsstring → Prop :=
  | m_eps : matches Eps []
  | m_class p c : p c = true → matches (Class p) [c]
  | m_cat r1 r2 s1 s2 :
      matches r1 s1 → matches r2 s2 → matches (Cat r1 r2) (s1 ++ s2)
  | m_alt_l r1 r2 s : matches r1 s → matches (Alt r1 r2) s
  | m_alt_r r1 r2 s : matches r2 s → matches (Alt r1 r2) s
  | m_star_nil r : matches (Star r) []
  | m_star_more r s1 s2 :
      matches r s1 → matches (Star r) s2 → matches (Star r) (s1 ++ s2).

End Text.

(** ** src/context/AuthContext.tsx, signing in *)

Module AuthFlows.
Import AuthContext.

Definition confirm_first : jsstring :=
  lit "Please check your email and click the confirmation link before logging in.".

Definition failure (m : jsstring) : AuthResult :=
  {| success := false; error := Some m;
     needsEmailConfirmation := None; message := None |}.

(** [error instanceof Error ? error.message : fallback] *)
Definition caught (fallback : string) (e : thrown) : jsstring :=
  match e with
  | JsError m => m
  | _ => lit fallback
  end.

(** [login(email, password)]; [q] answers [signInWithPassword]. *)
Definition login (q : await AuthResponse) (s : state)
  : state * await AuthResult :=
  let s := setLoading true s in
  let result :=
    try_catch
      (r ←ₐ q;
       match auth_error r with
       | Some m =>
           if Text.includes m (lit "Email not confirmed") then
             Resolved {| success := false; error := Some confirm_first;
                         needsEmailConfirmation := Some true;
                         message := None |}
           else Resolved (failure m)
       | None =>
           match data_user r with
           | None => Resolved (failure (lit "Login failed - no user data returned"))
           | Some _ =>
               Resolved {| success := true; error := None;
                           needsEmailConfirmation := None;
                           message := Some (lit "Login successful!") |}
           end
       end)
      (λ e, Resolved (failure (caught "Login failed" e))) in
  (setLoading false s, result).

(** [resendConfirmation(email)]; [q] answers [supabase.auth.resend] with
    its error, if any. *)
Definition resendConfirmation (q : await (option jsstring)) : await AuthResult :=
  try_catch
    (r ←ₐ q;
     match r with
     | Some m => Resolved (failure m)
     | None =>
         Resolved {| success := true; error := None;
                     needsEmailConfirmation := None;
                     message := Some (lit "Confirmation email sent! Please check your inbox and spam folder.") |}
     end)
    (λ e, Resolved (failure (caught "Failed to resend confirmation email" e))).

(** A result says one thing: a success carries a message and no error, a
    failure an error and no message. *)
Definition coherent (r : AuthResult) : Prop :=
  (success r = true ∧ error r = None ∧ is_Some (message r))
  ∨ (success r = false ∧ is_Some (error r) ∧ message r = None).

End AuthFlows.

(** ** Signing out

    [statsService] is an object of the module: it lives as long as the
    process does, next to the cells of the auth provider. *)

Module SignOut.
Import AuthContext.

Record process := Process {
  auth : AuthContext.state;
  stats : StatsService.service
}.

(** [logout()]; [q] answers [supabase.auth.signOut()] with its error, if
    any.  The error and a fault of the call are logged, and that is all. *)
Definition logout (q : await (option jsstring)) (w : process)
  : process * await unit :=
  (w, try_catch (error ←ₐ q; Resolved ()) (λ _, Resolved ())).

(** The callback of [onAuthStateChange] for an event without session, which
    is what a sign-out is followed by. *)
Definition onSignedOut (w : process) : process :=
  {| auth := {| user := None; session := None; loading := false |};
     stats := stats w |}.

End SignOut.

(** ** src/screens/AuthScreen.tsx *)

Module AuthScreen.
Import AuthContext.

Inductive user_type := student | lecturer.

Record FormData := {
  email : jsstring;
  password : jsstring;
  confirmPassword : jsstring;
  userType : user_type;
  name : jsstring;
  department : jsstring;
  year : jsstring;
  bio : jsstring;
  phone : jsstring
}.

(** The form [resetForm] installs. *)
Definition emptyForm : FormData :=
  {| email := []; password := []; confirmPassword := [];
     userType := student; name := []; department := []; year := [];
     bio := []; phone := [] |}.

(** [[^\s@]]: neither white space nor the at sign. *)
Definition plain (c : N) : bool :=
  negb (PostsService.is_space c) && negb (c =? 64)%N.

(** [/^[^\s@]+@[^\s@]+\.[^\s@]+$/] *)
Definition emailRegex : Text.regex :=
  Text.Cat (Text.plus (Text.Class plain))
    (Text.Cat (Text.Class (N.eqb 64))
       (Text.Cat (Text.plus (Text.Class plain))
          (Text.Cat (Text.Class (N.eqb 46))
             (Text.plus (Text.Class plain))))).

Definition validateEmail (email : jsstring) : bool :=
  Text.test emailRegex email.

(** [validateForm()]: the message of the first check that fails, or
    [null]. *)
Definition validateForm (formData : FormData) (isLogin : bool)
  : option jsstring :=
  match PostsService.trim (email formData) with
  | [] => Some (lit "Email is required")
  | _ =>
    if negb (validateEmail (email formData)) then
      Some (lit "Please enter a valid email address")
    else
      match password formData with
      | [] => Some (lit "Password is required")
      | _ =>
        if (length (password formData) <? 6)%nat then
          Some (lit "Password must be at least 6 characters long")
        else if isLogin then None
        else if negb (bool_decide (password formData = confirmPassword formData))
        then Some (lit "Passwords do not match")
        else
          match PostsService.trim (name formData) with
          | [] => Some (lit "Full name is required")
          | n =>
              if (length n <? 2)%nat then
                Some (lit "Name must be at least 2 characters long")
              else None
          end
      end
  end.

(** [v || undefined] after a [trim()]. *)
Definition trimmed (v : jsstring) : option jsstring :=
  match PostsService.trim v with
  | [] => None
  | t => Some t
  end.

(** The [profileData] argument of [register]. *)
Record ProfileData := {
  p_name : jsstring;
  p_user_type : user_type;
  p_department : option jsstring;
  p_year : option jsstring;
  p_bio : option jsstring;
  p_phone : option jsstring
}.

(** The calls the screen makes on the auth context. *)
Inductive call :=
  | CallLogin (email password : jsstring)
  | CallRegister (email password : jsstring) (profileData : ProfileData)
  | CallResend (email : jsstring).

(** The cells of the screen that [handleSubmit] reaches, the alerts shown
    and the calls made so far. *)
Record screen := {
  isLogin : bool;
  loading : bool;
  formData : FormData;
  alerts : list (jsstring * jsstring);
  calls : list call
}.

(** The button pressed on an alert that offers a choice. *)
Inductive button := ResendEmail | Acknowledge | Ignore.

(** What comes back during one [handleSubmit]: the results of [login],
    [register] and [resendConfirmation], and the button pressed. *)
Record answers := {
  loginResult : await AuthResult;
  registerResult : await AuthResult;
  resendResult : AuthResult;
  pressed : button
}.

Definition alert (title message : jsstring) (st : screen) : screen :=
  {| isLogin := isLogin st; loading := loading st; formData := formData st;
     alerts := alerts st ++ [(title, message)]; calls := calls st |}.

Definition called (c : call) (st : screen) : screen :=
  {| isLogin := isLogin st; loading := loading st; formData := formData st;
     alerts := alerts st; calls := calls st ++ [c] |}.

Definition setLoading (b : bool) (st : screen) : screen :=
  {| isLogin := isLogin st; loading := b; formData := formData st;
     alerts := alerts st; calls := calls st |}.

(** [setIsLogin(true); resetForm()] *)
Definition backToLogin (st : screen) : screen :=
  {| isLogin := true; loading := loading st; formData := emptyForm;
     alerts := alerts st; calls := calls st |}.

(** [a || b] on optional strings, the empty string being falsy. *)
Definition or_else (v : option jsstring) (d : jsstring) : jsstring :=
  match v with
  | Some (c :: m) => c :: m
  | _ => d
  end.

(** The [onPress] of "Resend Email". *)
Definition resend (a : answers) (st : screen) : screen :=
  let st := called (CallResend (email (formData st))) st in
  let r := resendResult a in
  alert (if success r then lit "Email Sent" else lit "Error")
        (or_else (message r) (or_else (error r) (lit "Please try again."))) st.

Definition profileOf (fd : FormData) : ProfileData :=
  {| p_name := PostsService.trim (name fd);
     p_user_type := userType fd;
     p_department := trimmed (department fd);
     p_year := match userType fd with
               | student => trimmed (year fd)
               | lecturer => None
               end;
     p_bio := trimmed (bio fd);
     p_phone := trimmed (phone fd) |}.

Definition unexpected : screen → screen :=
  alert (lit "Error") (lit "An unexpected error occurred. Please try again.").

(** [handleSubmit()] *)
Definition handleSubmit (a : answers) (st : screen) : screen :=
  let fd := formData st in
  match validateForm fd (isLogin st) with
  | Some validationError => alert (lit "Validation Error") validationError st
  | None =>
      let st := setLoading true st in
      let st :=
        if isLogin st then
          let st := called (CallLogin (email fd) (password fd)) st in
          match loginResult a with
          | Rejected _ => unexpected st
          | Resolved result =>
              if success result then st
              else if bool_decide (needsEmailConfirmation result = Some true)
              then
                let st :=
                  alert (lit "Email Confirmation Required")
                    (or_else (error result)
                       (lit "Please check your email and confirm your account."))
                    st in
                match pressed a with
                | ResendEmail => resend a st
                | _ => st
                end
              else alert (lit "Login Error")
                         (or_else (error result) (lit "Login failed")) st
          end
        else
          let st :=
            called (CallRegister (email fd) (password fd) (profileOf fd)) st in
          match registerResult a with
          | Rejected _ => unexpected st
          | Resolved result =>
              if success result then
                if bool_decide (needsEmailConfirmation result = Some true) then
                  let st :=
                    alert (lit "Check Your Email!")
                      (or_else (message result)
                         (lit "We sent you a confirmation link. Please check your email and click the link to activate your account."))
                      st in
                  match pressed a with
                  | ResendEmail => resend a st
                  | Acknowledge => backToLogin st
                  | Ignore => st
                  end
                else
                  let st :=
                    alert (lit "Registration Successful!")
                      (or_else (message result) (lit "You can now log in.")) st in
                  match pressed a with
                  | Acknowledge => backToLogin st
                  | _ => st
                  end
              else
                alert (lit "Registration Error")
                  (or_else (error result)
                     (lit "Registration failed - please try again")) st
          end in
      setLoading false st
  end.

(** The shape the email check asks for: [local@domain.tld], each part
    non-empty and free of white space and at signs. *)
Definition email_shape (e : jsstring) : Prop :=
  ∃ l x y, e = l ++ 64%N :: x ++ 46%N :: y
           ∧ l ≠ [] ∧ x ≠ [] ∧ y ≠ []
           ∧ Forall (λ c, plain c = true) (l ++ x ++ y).

End AuthScreen.

(** ** src/screens/ELibraryScreen.tsx, the catalogue and the uploads *)

Module Library.
Import Supabase ELibraryScreen.

(** A row of [files] as [loadFiles] selects it: the file with the joined
    [profiles(name)] of its uploader. *)
Record CatalogFile := {
  file : LibraryFile;
  profiles_name : option jsstring
}.

(** [Array.from(new Set(l))]: the elements of [l], each once, in the order
    of their first occurrence. *)
Definition set_from (l : list jsstring) : list jsstring :=
  foldl (λ acc x, if bool_decide (x ∈ acc) then acc else acc ++ [x]) [] l.

(** [getUniqueCategories()] *)
Definition getUniqueCategories (files : list CatalogFile) : list jsstring :=
  let categories := (λ f, category (file f)) <$> files in
  lit "all" :: set_from categories.

(** An entry of [offlineFiles]. *)
Record OfflineFile := {
  o_fileName : jsstring;
  o_localUri : jsstring;
  o_size : Z;
  o_modificationTime : Z;
  o_originalName : jsstring;
  o_category : jsstring
}.

(** [files.find(f => fileName.startsWith(f.id))] *)
Definition originalFile (files : list CatalogFile) (fileName : jsstring)
  : option CatalogFile :=
  List.find (λ f, Text.startsWith fileName (id (file f))) files.

(** [a || b] on strings, the empty string being falsy. *)
Definition or_string (a : option jsstring) (b : jsstring) : jsstring :=
  match a with
  | Some (c :: s) => c :: s
  | _ => b
  end.

(** One entry of the offline list; [info] is the size and modification
    time [getInfoAsync] reports, when it does. *)
Definition offlineInfo (downloadDir : jsstring) (files : list CatalogFile)
    (fileName : jsstring) (info : option (Z * Z)) : OfflineFile :=
  let original := originalFile files fileName in
  {| o_fileName := fileName;
     o_localUri := downloadDir ++ fileName;
     o_size := default 0 (fst <$> info);
     o_modificationTime := default 0 (snd <$> info);
     o_originalName := or_string ((λ f, name (file f)) <$> original) fileName;
     o_category :=
       or_string ((λ f, category (file f)) <$> original) (lit "Unknown") |}.

(** What the file system answers during one [loadDownloadedFiles]. *)
Record scan := {
  dirExists : await bool;
  listing : await (list jsstring);
  fileInfo : jsstring → await (option (Z * Z))
}.

(** [Promise.all] of the [getInfoAsync] calls: it rejects with the first
    rejection. *)
Fixpoint all_info (a : scan) (names : list jsstring)
  : await (list (jsstring * option (Z * Z))) :=
  match names with
  | [] => Resolved []
  | n :: names' =>
      i ←ₐ fileInfo a n;
      rest ←ₐ all_info a names';
      Resolved ((n, i) :: rest)
  end.

(** [loadDownloadedFiles()]: the downloaded-set and the offline list it
    leaves.  A failure is logged and leaves what was set before it. *)
Definition loadDownloadedFiles (downloadDir : jsstring)
    (files : list CatalogFile) (a : scan)
    (downloaded : gset jsstring) (offline : list OfflineFile)
  : gset jsstring * list OfflineFile :=
  match dirExists a with
  | Resolved true =>
      match listing a with
      | Resolved downloadedList =>
          let downloaded := list_to_set downloadedList in
          match all_info a downloadedList with
          | Resolved infos =>
              (downloaded,
               (λ ni, offlineInfo downloadDir files ni.1 ni.2) <$> infos)
          | Rejected _ => (downloaded, offline)
          end
      | Rejected _ => (downloaded, offline)
      end
  | _ => (downloaded, offline)
  end.

Section catalogue.

(** [String.prototype.toLowerCase] and [toUpperCase], and the storage
    client's [getPublicUrl(path).data.publicUrl]. *)
Variable toLowerCase : jsstring → jsstring.
Variable toUpperCase : jsstring → jsstring.
Variable publicUrl : jsstring → jsstring.

(** [getFilteredFiles()] *)
Definition getFilteredFiles (files : list CatalogFile)
    (selectedCategory searchQuery : jsstring) : list CatalogFile :=
  let filtered :=
    if bool_decide (selectedCategory = lit "all") then files
    else List.filter
           (λ f, bool_decide (category (file f) = selectedCategory)) files in
  match searchQuery with
  | [] => filtered
  | _ =>
      List.filter
        (λ f,
           Text.includes (toLowerCase (name (file f))) (toLowerCase searchQuery)
           || Text.includes (toLowerCase (or_string (profiles_name f) []))
                            (toLowerCase searchQuery))
        filtered
  end.

(** [getFileFormat(filename)] *)
Definition getFileFormat (filename : jsstring) : jsstring :=
  let ext := toLowerCase (Text.last_segment 46 filename) in
  toUpperCase ext.

(** The document the picker returned. *)
Record SelectedFile := {
  sf_name : jsstring;
  sf_uri : jsstring;
  sf_mimeType : option jsstring;
  sf_size : option Z
}.

(** The row inserted into [files]. *)
Record FileInsert := {
  f_name : jsstring;
  f_size : Z;
  f_type : jsstring;
  f_category : jsstring;
  f_uploader_id : jsstring;
  f_url : jsstring;
  f_file_format : jsstring
}.

(** The requests [handleUpload] sends. *)
Inductive request :=
  | StorageUpload (path uri type name : jsstring)
  | InsertFile (row : FileInsert)
  | SelectFiles.

(** The cells of the upload form, the alerts shown and the requests sent. *)
Record form := {
  showUploadForm : bool;
  uploadTitle : jsstring;
  uploadCategory : jsstring;
  selectedFile : option SelectedFile;
  alerts : list (jsstring * jsstring);
  requests : list request
}.

(** What comes back during one [handleUpload]: [Date.now()], and the
    errors, if any, of the storage upload and of the insert. *)
Record upload_answers := {
  now : N;
  uploadError : await (option jsstring);
  insertError : await (option jsstring)
}.

Definition alert (title message : jsstring) (st : form) : form :=
  {| showUploadForm := showUploadForm st; uploadTitle := uploadTitle st;
     uploadCategory := uploadCategory st; selectedFile := selectedFile st;
     alerts := alerts st ++ [(title, message)]; requests := requests st |}.

Definition send (r : request) (st : form) : form :=
  {| showUploadForm := showUploadForm st; uploadTitle := uploadTitle st;
     uploadCategory := uploadCategory st; selectedFile := selectedFile st;
     alerts := alerts st; requests := requests st ++ [r] |}.

(** The form once the upload went through. *)
Definition uploaded (st : form) : form :=
  {| showUploadForm := false; uploadTitle := [];
     uploadCategory := lit "Notes"; selectedFile := None;
     alerts := alerts st; requests := requests st |}.

(** [err.message] of what the [catch] receives.  Reading it off [undefined]
    or [null] throws a [TypeError] ([None] below); a value that has no
    message gives [undefined], shown as an empty message. *)
Definition message_of (e : thrown) : option jsstring :=
  match e with
  | JsError m => Some m
  | JsObject o =>
      Some (match o !! "message" with Some (VStr m) => m | _ => [] end)
  | JsValue None | JsValue (Some VNull) => None
  | JsValue (Some _) => Some []
  end.

(** The [catch] block of [handleUpload]: [console.error('Upload failed:',
    err.message); Alert.alert('Error', err.message)].  When reading the
    message throws, no alert is shown and the promise of [handleUpload]
    rejects with the [TypeError] (whose wording is the engine's). *)
Definition upload_failed (e : thrown) (st : form) : form * await unit :=
  match message_of e with
  | Some m => (alert (lit "Error") m st, Resolved ())
  | None => (st, Rejected (JsError (lit "Cannot read properties of undefined")))
  end.

(** [`${user.id}/${Date.now()}.${fileExt}`] *)
Definition filePath (userId : jsstring) (now : N) (sf : SelectedFile)
  : jsstring :=
  userId ++ lit "/" ++ lit (pretty now) ++ lit "."
  ++ Text.last_segment 46 (sf_name sf).

Definition mime (sf : SelectedFile) : jsstring :=
  or_string (sf_mimeType sf) (lit "application/octet-stream").

(** [handleUpload()]; [user] is [user.id] when somebody is signed in. *)
Definition handleUpload (user : option jsstring) (a : upload_answers)
    (st : form) : form * await unit :=
  match user with
  | None => (alert (lit "Error") (lit "User not authenticated") st, Resolved ())
  | Some uid =>
    match PostsService.trim (uploadTitle st) with
    | [] => (alert (lit "Error") (lit "Please enter a title") st, Resolved ())
    | _ =>
      match selectedFile st with
      | None => (alert (lit "Error") (lit "Please select a file") st, Resolved ())
      | Some sf =>
          let path := filePath uid (now a) sf in
          let st := send (StorageUpload path (sf_uri sf) (mime sf) (sf_name sf)) st in
          match uploadError a with
          | Rejected e => upload_failed e st
          | Resolved (Some m) => (alert (lit "Error") m st, Resolved ())
          | Resolved None =>
              let row :=
                {| f_name := PostsService.trim (uploadTitle st);
                   f_size := default 0 (sf_size sf);
                   f_type := mime sf;
                   f_category := uploadCategory st;
                   f_uploader_id := uid;
                   f_url := publicUrl path;
                   f_file_format := getFileFormat (sf_name sf) |} in
              let st := send (InsertFile row) st in
              match insertError a with
              | Rejected e => upload_failed e st
              | Resolved (Some m) => (alert (lit "Error") m st, Resolved ())
              | Resolved None =>
                  (send SelectFiles
                     (uploaded (alert (lit "Success") (lit "File uploaded!") st)),
                   Resolved ())
              end
          end
      end
    end
  end.

(** The form once [handleUpload] has settled. *)
Definition uploadForm (user : option jsstring) (a : upload_answers)
    (st : form) : form :=
  (handleUpload user a st).1.

End catalogue.

End Library.

(** ** src/screens/FeedScreen.tsx *)

Module FeedScreen.
Import Supabase.

(** The form of the create-post modal. *)
Record NewPost := {
  title : jsstring;
  content : jsstring;
  type : jsstring
}.

(** The cells [handleCreatePost] reaches, the alerts shown, the post data
    handed to [createPost] so far, and the state of the [usePosts] hook. *)
Record screen := {
  newPost : NewPost;
  showCreateModal : bool;
  creatingPost : bool;
  alerts : list (jsstring * jsstring);
  submitted : list obj;
  hook : UsePosts.state
}.

Definition alert (title message : jsstring) (st : screen) : screen :=
  {| newPost := newPost st; showCreateModal := showCreateModal st;
     creatingPost := creatingPost st;
     alerts := alerts st ++ [(title, message)];
     submitted := submitted st; hook := hook st |}.

Definition setCreatingPost (b : bool) (st : screen) : screen :=
  {| newPost := newPost st; showCreateModal := showCreateModal st;
     creatingPost := b; alerts := alerts st;
     submitted := submitted st; hook := hook st |}.

(** The post data [handleCreatePost] builds. *)
Definition postData (n : NewPost) (userId : jsstring) : obj :=
  {[ "title" := VStr (PostsService.trim (title n));
     "content" := VStr (PostsService.trim (content n));
     "type" := VStr (type n);
     "author_id" := VStr userId ]}.

(** [result.error || 'Failed to create post.'] *)
Definition reason_or (r : option string) (d : string) : jsstring :=
  match r with
  | Some (String c m) => lit (String c m)
  | _ => lit d
  end.

(** [handleCreatePost()]; [user] is [user.id] when somebody is signed in
    and [q] answers the insert that [createPost] issues. *)
Definition handleCreatePost (user : option jsstring)
    (q : await (response obj)) (st : screen) : screen :=
  match PostsService.trim (title (newPost st)),
        PostsService.trim (content (newPost st)) with
  | _ :: _, _ :: _ =>
      match user with
      | None =>
          alert (lit "Error") (lit "You must be logged in to create a post.") st
      | Some uid =>
          let st := setCreatingPost true st in
          let data := postData (newPost st) uid in
          let '(h, result) := UsePosts.createPost data q (hook st) in
          let st :=
            {| newPost := newPost st; showCreateModal := showCreateModal st;
               creatingPost := creatingPost st; alerts := alerts st;
               submitted := submitted st ++ [data]; hook := h |} in
          let st :=
            if negb (UsePosts.success result) then
              alert (lit "Error")
                (reason_or (UsePosts.reason result) "Failed to create post.") st
            else
              alert (lit "Success") (lit "Post created successfully!")
                {| newPost := {| title := []; content := [];
                                 type := lit "discussion" |};
                   showCreateModal := false;
                   creatingPost := creatingPost st; alerts := alerts st;
                   submitted := submitted st; hook := hook st |} in
          setCreatingPost false st
      end
  | _, _ => alert (lit "Error") (lit "Please fill in both title and content.") st
  end.

End FeedScreen.

(** Further sample data, for the services, the hooks and the library. *)

Module Fixtures.
Import Js Supabase Sample.

Definition post (i t : string) : obj :=
  {[ "id" := VStr (lit i); "type" := VStr (lit t);
     "title" := VStr (lit "T") ]}.

Definition answered (d : list obj) : await (response (list obj)) :=
  Resolved (Response (Some d) None None).

Definition offline : await (response (list obj)) :=
  Rejected (JsError (lit "Network request failed")).

Definition catalogued (i : string) : Library.CatalogFile :=
  {| Library.file := notes i; Library.profiles_name := Some (lit "Ada") |}.

Definition cached (f e m : Z) : StatsService.service :=
  {| StatsService.listeners := [1%nat];
     StatsService.currentStats := Some (StatsService.Stats f e m);
     StatsService.userId := Some (lit "u1");
     StatsService.delivered := [];
     StatsService.sent := [] |}.

End Fixtures.

(** * Properties *)

Section posts_cache.
Import Supabase UsePosts PostsCache.

Lemma spread_keeps_id (post new : obj) :
  id_of post = id_of new → id_of (spread post new) = id_of post.
Proof.
  unfold id_of, get, spread. intros E.
  rewrite lookup_union. rewrite <- E.
  destruct (post !! "id"); reflexivity.
Qed.

Lemma strict_eq_true a b : strict_eq a b = true ↔ a = b.
Proof. unfold strict_eq. apply bool_decide_eq_true. Qed.

Lemma merge_update_id new post : id_of (merge_update new post) = id_of post.
Proof.
  unfold merge_update. fold (id_of post) (id_of new).
  destruct (strict_eq (id_of post) (id_of new)) eqn:E; [|done].
  apply spread_keeps_id. by apply strict_eq_true.
Qed.

Lemma foldl_spread_id (us : list obj) (post : obj) :
  Forall (λ u, id_of u = id_of post) us → id_of (foldl spread post us) = id_of post.
Proof.
  revert post. induction us as [|u us IH]; intros post H; [done|].
  inversion H as [|? ? Hu Hus]; subst. simpl.
  rewrite IH.
  - by apply spread_keeps_id.
  - rewrite spread_keeps_id by done. exact Hus.
Qed.

Lemma patch_id tail post : id_of (patch tail post) = id_of post.
Proof.
  unfold patch, updates_for. apply foldl_spread_id.
  apply Forall_fmap, Forall_forall. intros p Hp.
  apply list_elem_of_In, filter_In in Hp as [_ Hp].
  unfold is_update_of in Hp. destruct (eventType p); try done.
  simpl. symmetry. by apply strict_eq_true.
Qed.

Lemma filter_fmap_comm {A B} (f : B → bool) (g : A → B) (l : list A) :
  List.filter f (g <$> l) = g <$> List.filter (λ x, f (g x)) l.
Proof.
  induction l as [|x l IH]; [done|]. cbn.
  destruct (f (g x)); cbn; by rewrite IH.
Qed.

Lemma filter_filter_andb {A} (f g : A → bool) (l : list A) :
  List.filter f (List.filter g l) = List.filter (λ x, g x && f x) l.
Proof.
  induction l as [|x l IH]; [done|]. cbn.
  destruct (g x); cbn; [destruct (f x)|]; by rewrite IH.
Qed.

Lemma filter_ext_bool {A} (f g : A → bool) (l : list A) :
  (∀ x, f x = g x) → List.filter f l = List.filter g l.
Proof. intros E. induction l as [|x l IH]; [done|]. cbn. by rewrite E, IH. Qed.

Lemma deleted_snoc i tail p :
  deleted i (tail ++ [p]) = deleted i tail || is_delete_of i p.
Proof. unfold deleted. rewrite existsb_app. cbn. by rewrite orb_false_r. Qed.

Lemma updates_for_snoc i tail p :
  updates_for i (tail ++ [p])
  = updates_for i tail ++ (if is_update_of i p then [new p] else []).
Proof.
  unfold updates_for. rewrite List.filter_app, fmap_app. cbn.
  by destruct (is_update_of i p).
Qed.

(** One more event after [tail]: what it does to a patched entry. *)
Lemma patch_snoc tail p post :
  patch (tail ++ [p]) post
  = if is_update_of (id_of post) p
    then spread (patch tail post) (new p) else patch tail post.
Proof.
  unfold patch. rewrite updates_for_snoc, foldl_app.
  by destruct (is_update_of (id_of post) p).
Qed.

Lemma settle_snoc_update tail p base :
  eventType p = UPDATE →
  settle (tail ++ [p]) base = merge_update (new p) <$> settle tail base.
Proof.
  intros Hp. unfold settle.
  rewrite <- list_fmap_compose.
  rewrite (filter_ext_bool (live (tail ++ [p])) (live tail)).
  2:{ intros x. unfold live. rewrite deleted_snoc.
      unfold is_delete_of. rewrite Hp. by rewrite orb_false_r. }
  apply list_fmap_ext. intros _ post _. cbn.
  rewrite patch_snoc. unfold is_update_of, merge_update. rewrite Hp.
  fold (id_of (patch tail post)) (id_of (new p)). by rewrite patch_id.
Qed.

Lemma settle_snoc_delete tail p base :
  eventType p = DELETE →
  settle (tail ++ [p]) base = List.filter (keeps (old p)) (settle tail base).
Proof.
  intros Hp. unfold settle.
  rewrite filter_fmap_comm, filter_filter_andb.
  rewrite (filter_ext_bool (live (tail ++ [p]))
             (λ x, live tail x && keeps (old p) (patch tail x))).
  2:{ intros x. unfold live, keeps. rewrite deleted_snoc.
      fold (id_of (patch tail x)) (id_of (old p)). rewrite patch_id.
      unfold is_delete_of. rewrite Hp. by rewrite negb_orb. }
  apply list_fmap_ext. intros _ post _.
  rewrite patch_snoc. unfold is_update_of. by rewrite Hp.
Qed.

Lemma settle_snoc_insert tail p base :
  eventType p = INSERT → settle (tail ++ [p]) base = settle tail base.
Proof.
  intros Hp. unfold settle.
  rewrite (filter_ext_bool (live (tail ++ [p])) (live tail)).
  2:{ intros x. unfold live. rewrite deleted_snoc.
      unfold is_delete_of. rewrite Hp. by rewrite orb_false_r. }
  apply list_fmap_ext. intros _ post _.
  rewrite patch_snoc. unfold is_update_of. by rewrite Hp.
Qed.

Lemma settle_nil base : settle [] base = base.
Proof.
  unfold settle. cbn.
  rewrite (filter_ext_bool _ (λ _, true)) by done.
  induction base as [|x l IH]; [done|]. cbn in *. by rewrite IH.
Qed.

(** What the end of a refresh does to the cache: it installs the rows
    fetched, or leaves the cache as it is. *)
Lemma refreshed_posts initialType q s :
  posts (loadPosts_end initialType q s)
  = default (posts s) (installs initialType (Refreshed q)).
Proof.
  unfold installs, loadPosts_end.
  destruct initialType; cbn;
    unfold PostsService.getAllPosts, PostsService.getPostsByType,
      PostsService.select_posts;
    destruct q as [[d [e|] c]|e]; cbn; try done;
    by destruct (thrown_to_boolean e).
Qed.

Lemma deliver_settle initialType acts : ∀ s base tail,
  posts s = settle tail base →
  posts (deliver initialType acts s)
  = settle (rebase initialType acts base tail).2
           (rebase initialType acts base tail).1.
Proof.
  induction acts as [|[p|q] acts IH]; intros s base tail Hs; [done|..].
  - cbn [deliver foldl rebase installs event_of act].
    fold (deliver initialType acts). apply IH.
    unfold onPostChange. destruct (eventType p) eqn:Hp; cbn.
    + by rewrite settle_snoc_insert.
    + by rewrite settle_snoc_update, Hs.
    + by rewrite settle_snoc_delete, Hs.
  - cbn [deliver foldl rebase event_of act].
    fold (deliver initialType acts).
    pose proof (refreshed_posts initialType q s) as Hr.
    destruct (installs initialType (Refreshed q)) as [fresh|];
      apply IH; rewrite Hr; cbn.
    + by rewrite settle_nil.
    + by rewrite app_nil_r.
Qed.

Lemma ids_settle tail base :
  ids (settle tail base)
  = List.filter (λ i, negb (deleted i tail)) (ids base).
Proof.
  unfold ids, settle. rewrite <- list_fmap_compose.
  rewrite filter_fmap_comm.
  apply list_fmap_ext. intros _ post _. cbn. apply patch_id.
Qed.

Lemma filter_own_id (base : rows) (post : obj) :
  NoDup (ids base) → post ∈ base →
  List.filter (λ e, strict_eq (id_of e) (id_of post)) base = [post].
Proof.
  induction base as [|x base IH]; intros Hnd Hin.
  - by apply elem_of_nil in Hin.
  - cbn in Hnd. apply NoDup_cons in Hnd as [Hx Hnd]. cbn.
    apply elem_of_cons in Hin as [->|Hin].
    + replace (strict_eq (id_of x) (id_of x)) with true
        by (symmetry; by apply strict_eq_true).
      f_equal. clear IH Hnd.
      induction base as [|y base IH]; [done|]. cbn.
      destruct (strict_eq (id_of y) (id_of x)) eqn:E.
      * apply strict_eq_true in E. exfalso. apply Hx. rewrite <- E.
        cbn. apply elem_of_cons. by left.
      * apply IH. intros H. apply Hx. cbn. apply elem_of_cons. by right.
    + destruct (strict_eq (id_of x) (id_of post)) eqn:E.
      * apply strict_eq_true in E. exfalso. apply Hx. rewrite E.
        unfold ids. apply list_elem_of_fmap. by exists post.
      * by apply IH.
Qed.

(** The handler alone, with no refresh completing in between: the state it
    leaves after a sequence of events. *)
Lemma deliver_events initialType (events : list payload) : ∀ s,
  deliver initialType (Change <$> events) s
  = State (settle events (posts s))
          (if refreshing events then true else loading s)
          (if refreshing events then None else error s).
Proof.
  induction events as [|p events IH] using rev_ind; intros s.
  - cbn. rewrite settle_nil. by destruct s.
  - unfold deliver in *. rewrite fmap_app, foldl_app, IH. cbn.
    unfold refreshing. rewrite existsb_app. cbn. rewrite orb_false_r.
    fold (refreshing events).
    unfold onPostChange. destruct (eventType p) eqn:Hp; cbn.
    + rewrite orb_true_r. by rewrite settle_snoc_insert.
    + rewrite orb_false_r. by rewrite settle_snoc_update.
    + rewrite orb_false_r. by rewrite settle_snoc_delete.
Qed.

(** What the answer to a refresh installs. *)
Lemma installs_cases initialType (q : await (response rows)) :
  (∀ d c, q = Resolved (Response d None c) →
     installs initialType (Refreshed q)
     = Some (PostsService.with_extras <$> default [] d))
  ∧ (Contract.refused q → installs initialType (Refreshed q) = None)
  ∧ (Contract.falsy_fault q → installs initialType (Refreshed q) = Some []).
Proof.
  unfold installs, loadPosts_end. split; [|split].
  - intros d c ->. destruct initialType, d; reflexivity.
  - intros [(a & e & -> & He)|(e & -> & He)].
    + destruct a as [d e' c]. cbn in He. subst. by destruct initialType.
    + destruct initialType; cbn; by rewrite He.
  - intros (e & -> & He). destruct initialType; cbn; by rewrite He.
Qed.

(** C1, as the code has it.  Whatever sequence of INSERT / UPDATE / DELETE
    events the posts subscription handler is given, with the refreshes that
    the INSERTs start completing anywhere in between, the cache it leaves is
    read off the last collection loaded ([base]: the cache the sequence
    started from, or the rows installed by the latest refresh that
    completed without a visible error) and the events delivered after that
    completion ([tail]): it is the entries of [base] that no DELETE of
    [tail] hit, in their order, each shallow-merged with every UPDATE
    payload of [tail] for its id, oldest first.  So when [base] has one
    entry per id, the cache has exactly one entry per id of [base] that
    [tail] did not delete, carrying those merged fields; it has no entry
    for an id that received a DELETE in [tail]; and an UPDATE rewrites the
    entry at the index where it stands.  The events delivered before the
    latest completion leave no trace.  An INSERT adds no entry by itself:
    with no refresh completing in between, the handler leaves the entries
    the UPDATEs and DELETEs give, and from the first INSERT on [loading] is
    set and the error cleared.  What a completion installs is the rows of
    an accepted answer, nothing when the query is refused, and the empty
    collection when the call fails with a falsy value. *)
Theorem posts_cache_after_events initialType acts s :
  let base := (rebase initialType acts (posts s) []).1 in
  let tail := (rebase initialType acts (posts s) []).2 in
  NoDup (ids base) →
  let final := posts (deliver initialType acts s) in
  final = settle tail base
  ∧ NoDup (ids final)
  ∧ (∀ post, post ∈ base → deleted (id_of post) tail = false →
       List.filter (λ e, strict_eq (id_of e) (id_of post)) final
       = [foldl spread post (updates_for (id_of post) tail)])
  ∧ (∀ e, e ∈ final → deleted (id_of e) tail = false)
  ∧ (∀ new old s0 (i : nat),
       posts (onPostChange (Payload UPDATE new old) s0) !! i
       = merge_update new <$> posts s0 !! i)
  ∧ (∀ events s0,
       deliver initialType (Change <$> events) s0
       = State (settle events (posts s0))
               (if refreshing events then true else loading s0)
               (if refreshing events then None else error s0))
  ∧ (∀ q : await (response rows),
       (∀ d c, q = Resolved (Response d None c) →
          installs initialType (Refreshed q)
          = Some (PostsService.with_extras <$> default [] d))
       ∧ (Contract.refused q → installs initialType (Refreshed q) = None)
       ∧ (Contract.falsy_fault q →
          installs initialType (Refreshed q) = Some [])).
Proof.
  intros base tail Hnd final.
  assert (final = settle tail base) as Hfinal.
  { unfold final. rewrite (deliver_settle initialType acts s (posts s) []).
    - done.
    - by rewrite settle_nil. }
  split; [exact Hfinal|]. rewrite Hfinal.
  split; [|split; [|split; [|split; [|split]]]].
  - rewrite ids_settle. apply NoDup_ListNoDup, List.NoDup_filter.
    by apply NoDup_ListNoDup.
  - intros post Hin Hlive. unfold settle.
    rewrite filter_fmap_comm, filter_filter_andb.
    rewrite (filter_ext_bool _
               (λ x, strict_eq (id_of x) (id_of post) && live tail x)).
    2:{ intros x. rewrite patch_id. apply andb_comm. }
    rewrite <- filter_filter_andb, filter_own_id by done.
    cbn. unfold live. by rewrite Hlive.
  - intros e He. unfold settle in He.
    apply list_elem_of_fmap in He as (x & -> & Hx).
    apply list_elem_of_In, filter_In in Hx as [_ Hx].
    rewrite patch_id. unfold live in Hx. by apply negb_true_iff in Hx.
  - intros new old s0 i. cbn. apply list_lookup_fmap.
  - apply deliver_events.
  - apply installs_cases.
Qed.

(** C1, refuted as stated: a refresh that completes after later events
    undoes them.  The cache holds p1 and p2.  An INSERT of p3 starts a
    refresh; before its answer arrives a DELETE of p2 and an UPDATE of p1
    are delivered; then the answer, read by the backend before the two,
    is installed.  The last event of p2 is a DELETE and yet p2 is cached,
    and p1 carries the title it had before its UPDATE. *)
Lemma stale_refresh_undoes_events :
  let p1 := Fixtures.post "p1" "discussion" in
  let p2 := Fixtures.post "p2" "discussion" in
  let p3 := Fixtures.post "p3" "event" in
  let retitle : obj :=
    {[ "id" := VStr (lit "p1"); "title" := VStr (lit "T2") ]} in
  let events := [Payload INSERT p3 ∅;
                 Payload DELETE ∅ {[ "id" := VStr (lit "p2") ]};
                 Payload UPDATE retitle ∅] in
  let stale := Fixtures.answered [p3; p1; p2] in
  let final :=
    posts (deliver all ((Change <$> events) ++ [Refreshed stale])
             (State [p1; p2] false None)) in
  final = PostsService.with_extras <$> [p3; p1; p2]
  ∧ last events = Some (Payload UPDATE retitle ∅)
  ∧ deleted (Some (VStr (lit "p2"))) events = true
  ∧ Some (VStr (lit "p2")) ∈ ids final
  ∧ updates_for (Some (VStr (lit "p1"))) events = [retitle]
  ∧ (∀ e, e ∈ final → get e "title" = Some (VStr (lit "T")))
  ∧ ¬ (∀ e, e ∈ final → deleted (id_of e) events = false).
Proof.
  cbv zeta.
  assert (posts (deliver all
            ((Change <$>
                [Payload INSERT (Fixtures.post "p3" "event") ∅;
                 Payload DELETE ∅ {[ "id" := VStr (lit "p2") ]};
                 Payload UPDATE
                   {[ "id" := VStr (lit "p1"); "title" := VStr (lit "T2") ]} ∅])
             ++ [Refreshed
                   (Fixtures.answered
                      [Fixtures.post "p3" "event";
                       Fixtures.post "p1" "discussion";
                       Fixtures.post "p2" "discussion"])])
            (State [Fixtures.post "p1" "discussion";
                    Fixtures.post "p2" "discussion"] false None))
          = PostsService.with_extras <$>
              [Fixtures.post "p3" "event"; Fixtures.post "p1" "discussion";
               Fixtures.post "p2" "discussion"]) as E
    by (vm_compute; reflexivity).
  rewrite E. clear E.
  split; [reflexivity|]. split; [reflexivity|].
  split; [by vm_compute|].
  assert (Some (VStr (lit "p2"))
          ∈ ids (PostsService.with_extras <$>
                   [Fixtures.post "p3" "event"; Fixtures.post "p1" "discussion";
                    Fixtures.post "p2" "discussion"])) as Hin.
  { cbn [fmap list_fmap ids]. do 2 (apply elem_of_cons; right).
    apply elem_of_cons. left. by vm_compute. }
  split; [exact Hin|]. split; [by vm_compute|]. split.
  - intros e He. cbn [fmap list_fmap] in He.
    repeat (apply elem_of_cons in He as [->|He]; [by vm_compute|]).
    by apply elem_of_nil in He.
  - intros H.
    assert (deleted
              (id_of (PostsService.with_extras (Fixtures.post "p2" "discussion")))
              [Payload INSERT (Fixtures.post "p3" "event") ∅;
               Payload DELETE ∅ {[ "id" := VStr (lit "p2") ]};
               Payload UPDATE
                 {[ "id" := VStr (lit "p1"); "title" := VStr (lit "T2") ]} ∅]
            = false) as Hd.
    { apply H. cbn [fmap list_fmap]. do 2 (apply elem_of_cons; right).
      apply elem_of_cons. by left. }
    vm_compute in Hd. discriminate Hd.
Qed.

(** C9.  Applying one DELETE event a second time changes nothing: the
    handler returns the state the first application left, with the same
    entries, and signals no error. *)
Theorem delete_event_twice new old s :
  let p := Payload DELETE new old in
  onPostChange p (onPostChange p s) = onPostChange p s.
Proof.
  cbn. unfold setPosts. cbn. f_equal.
  rewrite filter_filter_andb. apply filter_ext_bool.
  intros x. by destruct (keeps old x).
Qed.

End posts_cache.

Section stats_service.
Import Supabase StatsService StatsInvariant.

Lemma fresh_ok : stats_ok statsService.
Proof. split; [by intros st [=]|]. intros l st H. by apply elem_of_nil in H. Qed.

Lemma notify_ok st t : in_range st → stats_ok t → stats_ok (notify st t).
Proof.
  intros Hst [_ Hd]. split; cbn.
  - intros st' [= <-]. exact Hst.
  - intros l st' [H|H]%elem_of_app; [by eapply Hd|].
    apply list_elem_of_fmap in H as (c & [= -> ->] & _). exact Hst.
Qed.

Lemma send_ok rs t : stats_ok t → stats_ok (send rs t).
Proof. intros [H1 H2]. by split. Qed.

Lemma record_ok r bump q t :
  (∀ st, in_range st → in_range (bump st)) →
  stats_ok t → stats_ok (record r bump q t).1.
Proof.
  intros Hb Ht. unfold record.
  destruct q as [[d [e|] c]|e]; cbn; try by apply send_ok.
  destruct (currentStats t) as [cur|] eqn:E; [|by apply send_ok].
  apply notify_ok; [|by apply send_ok].
  apply Hb. destruct Ht as [Ht _]. by apply Ht.
Qed.

Lemma loaded_in_range (a b : option N) createdAt now :
  in_range {| filesDownloaded := default 0 (Z.of_N <$> a);
              eventsAttended := default 0 (Z.of_N <$> b);
              monthsActive := Z.max 1 ((now - createdAt) / month_ms) |}.
Proof.
  unfold in_range. cbn. repeat split.
  - destruct a; cbn; lia.
  - destruct b; cbn; lia.
  - lia.
Qed.

Lemma step_ok t o : stats_ok t → stats_ok (step t o).
Proof.
  intros Ht. destruct o; cbn.
  - destruct Ht. by split.
  - destruct Ht. by split.
  - unfold loadStats. destruct q as [[dl ev]|e]; cbn.
    + apply notify_ok; [apply loaded_in_range|].
      destruct Ht. by split.
    + destruct Ht. by split.
  - apply record_ok; [|done]. unfold in_range. cbn. lia.
  - apply record_ok; [|done]. unfold in_range. cbn. lia.
  - apply record_ok; [|done]. unfold in_range. cbn. lia.
  - destruct Ht as [_ Hd]. by split.
Qed.

Lemma run_ok ops : ∀ t, stats_ok t → stats_ok (run ops t).
Proof.
  unfold run. induction ops as [|o ops IH]; intros t Ht; [exact Ht|].
  cbn. apply IH. by apply step_ok.
Qed.

(** C10.  After any sequence of operations on the statistics singleton,
    starting from the fresh instance, the cached value (when there is one)
    and every value handed to a listener have [filesDownloaded >= 0],
    [eventsAttended >= 0] and [monthsActive >= 1]; removing an attendance
    from a counter at zero leaves it at zero, and a profile created at the
    very instant of the load gets [monthsActive = 1]. *)
Theorem stats_counters_in_range ops :
  stats_ok (run ops statsService)
  ∧ (∀ ls f m u dl snt uid eventId,
       getCurrentStats
         (removeEventAttendance uid eventId (Resolved (Response None None None))
            (Service ls (Some (Stats f 0 m)) u dl snt)).1
       = Some (Stats f 0 m))
  ∧ (∀ t0 uid now a b,
       monthsActive <$> getCurrentStats (loadStats uid now now (Resolved (a, b)) t0).1
       = Some 1).
Proof.
  split; [apply run_ok, fresh_ok|]. split.
  - done.
  - intros. cbn. by rewrite Z.sub_diag.
Qed.

(** One operation hands values to the listeners it found registered only. *)
Lemma step_delivered t o :
  ∃ d, delivered (step t o) = delivered t ++ d
       ∧ ∀ l st, (l, st) ∈ d → l ∈ listeners t.
Proof.
  assert (∀ st (t : service),
    ∃ d, delivered (notify st t) = delivered t ++ d
         ∧ ∀ l st', (l, st') ∈ d → l ∈ listeners t) as Hn.
  { intros st t'. eexists. split; [done|].
    intros l st' (c & [= -> ->] & Hc)%list_elem_of_fmap. done. }
  assert (∀ (t : service), ∃ d : list (listener * UserStats),
    delivered t = delivered t ++ d ∧ ∀ l st, (l, st) ∈ d → l ∈ listeners t)
    as Hid.
  { intros t'. exists []. split; [by rewrite app_nil_r|].
    intros l st H. by apply elem_of_nil in H. }
  assert (∀ r bump q, ∃ d, delivered (record r bump q t).1 = delivered t ++ d
                           ∧ ∀ l st, (l, st) ∈ d → l ∈ listeners t) as Hr.
  { intros r bump q. unfold record.
    destruct q as [[d [e|] c]|e]; cbn; try exact (Hid t).
    destruct (currentStats t) as [cur|]; [|exact (Hid t)].
    destruct (Hn (bump cur) (send [r] t)) as (d' & E & H).
    exists d'. split; [exact E|exact H]. }
  destruct o; cbn; try exact (Hid t); try apply Hr.
  unfold loadStats. destruct q as [[dl ev]|e]; [|exact (Hid t)].
  exact (Hn {| filesDownloaded := default 0 (Z.of_N <$> count dl);
               eventsAttended := default 0 (Z.of_N <$> count ev);
               monthsActive := Z.max 1 ((now - createdAt) / month_ms) |}
            (send [CountDownloads uid; CountEventAttendances uid]
                  (setUserId uid t))).
Qed.

(** One operation registers at most the listener it subscribes. *)
Lemma step_listeners t o l :
  l ∈ listeners (step t o) → l ∈ listeners t ∨ o = Subscribe l.
Proof.
  assert (∀ r bump q, l ∈ listeners (record r bump q t).1 → l ∈ listeners t)
    as Hr.
  { intros r bump q. unfold record.
    destruct q as [[d [e|] c]|e]; cbn; try done.
    by destruct (currentStats t). }
  destruct o; cbn; try (intros H; left; by eapply Hr).
  - case_bool_decide; [by left|].
    intros [H'|H']%elem_of_app; [by left|].
    apply list_elem_of_singleton in H' as ->. by right.
  - intros H. left. apply list_elem_of_In, filter_In in H as [H _].
    by apply list_elem_of_In.
  - unfold loadStats. destruct q as [[dl ev]|e]; cbn; by left.
  - intros H. by apply elem_of_nil in H.
Qed.

Lemma run_delivered ops : ∀ t,
  ∃ d, delivered (run ops t) = delivered t ++ d
       ∧ ∀ l st, (l, st) ∈ d → l ∈ listeners t ∨ Subscribe l ∈ ops.
Proof.
  unfold run. induction ops as [|o ops IH]; intros t.
  - exists []. split; [by rewrite app_nil_r|].
    intros l st H. by apply elem_of_nil in H.
  - cbn. destruct (IH (step t o)) as (d2 & E2 & H2).
    destruct (step_delivered t o) as (d1 & E1 & H1).
    exists (d1 ++ d2). split; [by rewrite E2, E1, app_assoc|].
    intros l st [H|H]%elem_of_app.
    + left. by eapply H1.
    + destruct (H2 l st H) as [H'|H'].
      * destruct (step_listeners t o l H') as [?| ->]; [by left|].
        right. apply elem_of_cons. by left.
      * right. apply elem_of_cons. by right.
Qed.

(** What [clear] does when it is called: the cached statistics read as
    [null], no listener is registered, and whatever operations follow, a
    value is handed only to listeners that subscribed again after the clear:
    a listener registered before it hears nothing more. *)
Lemma clear_resets_singleton t ops :
  getCurrentStats (clear t) = None
  ∧ listeners (clear t) = []
  ∧ ∀ l st, (l, st) ∈ delivered_since (clear t) (run ops (clear t)) →
            Subscribe l ∈ ops.
Proof.
  split; [done|]. split; [done|].
  intros l st H. unfold delivered_since in H.
  destruct (run_delivered ops (clear t)) as (d & E & Hd).
  rewrite E, drop_app_length in H.
  destruct (Hd l st H) as [H'|H']; [|done].
  cbn in H'. by apply elem_of_nil in H'.
Qed.

(** C5, as the code has it: the reset does not happen on logout.  [logout]
    and the sign-out event that follows it leave the statistics singleton as
    it was, since nothing calls [clear].  So the counters cached for the
    user who signed out are still what [getCurrentStats] returns, the
    listeners registered before are still registered, and the next load
    hands its value to every one of them. *)
Theorem logout_keeps_stats_singleton q w :
  let w' := SignOut.onSignedOut (SignOut.logout q w).1 in
  (SignOut.logout q w).2 = Resolved ()
  ∧ AuthContext.isAuthenticated (SignOut.auth w') = false
  ∧ SignOut.stats w' = SignOut.stats w
  ∧ getCurrentStats (SignOut.stats w') = getCurrentStats (SignOut.stats w)
  ∧ listeners (SignOut.stats w') = listeners (SignOut.stats w)
  ∧ (∀ uid createdAt now dl ev,
       let t' :=
         (loadStats uid createdAt now (Resolved (dl, ev)) (SignOut.stats w')).1 in
       ∃ st, getCurrentStats t' = Some st
         ∧ delivered_since (SignOut.stats w') t'
           = (λ l, (l, st)) <$> listeners (SignOut.stats w)).
Proof.
  cbv zeta. split.
  { unfold SignOut.logout. cbn. by destruct q as [r|e]. }
  split; [reflexivity|]. split; [reflexivity|]. split; [reflexivity|].
  split; [reflexivity|].
  intros uid createdAt now dl ev. eexists. split; [reflexivity|].
  unfold delivered_since. cbn. by rewrite drop_app_length.
Qed.

End stats_service.

Section posts_service.
Import Supabase PostsService.

(** A mutation that reaches the backend and comes back without an error is
    reported as a success by [deletePost], whatever it removed. *)
Lemma deletePost_success postId userId d c :
  deletePost postId userId (Resolved (Response d None c))
  = Resolved (Outcome true None).
Proof. reflexivity. Qed.

(** The constrained update of a post the requester does not own touches no
    row and comes back as a failure. *)
Lemma update_by_non_owner updates postId userId (t : Backend.table) :
  List.filter (Backend.hit postId userId) t = [] →
  let '(t', answer) := Backend.update_posts updates postId userId t in
  t' = t
  ∧ updatePost postId updates userId (Resolved answer)
    = Resolved (Result None (Some (EPostgrest Backend.no_single_row))).
Proof. intros H. unfold Backend.update_posts. rewrite H. by split. Qed.

(** The constrained delete of a post the requester does not own touches no
    row either, and comes back as a success. *)
Lemma delete_by_non_owner postId userId (t : Backend.table) :
  List.filter (Backend.hit postId userId) t = [] →
  let '(t', answer) := Backend.delete_posts postId userId t in
  t' = t
  ∧ deletePost postId userId (Resolved answer) = Resolved (Outcome true None).
Proof.
  intros H. cbn. split; [|done].
  induction t as [|row t IH]; [done|]. cbn in *.
  destruct (Backend.hit postId userId row); [done|]. cbn. f_equal. by apply IH.
Qed.

(** C2.  The delete half of the ownership contract, on a post of alice
    requested by mallory: the backend removes nothing, yet [deletePost]
    answers [{ success: true, error: null }], and the hook then drops the
    entry from its cache.  The update half fails as it should. *)
Theorem delete_by_non_owner_reports_success :
  let post : obj :=
    {[ "id" := VStr (lit "p1"); "author_id" := VStr (lit "alice");
       "title" := VStr (lit "T") ]} in
  let '(t', answer) := Backend.delete_posts (lit "p1") (lit "mallory") [post] in
  t' = [post]
  ∧ deletePost (lit "p1") (lit "mallory") (Resolved answer)
    = Resolved (Outcome true None)
  ∧ UsePosts.deletePost (lit "p1") (lit "mallory") (Resolved answer)
      (UsePosts.State [post] false None)
    = (UsePosts.State [] false None, UsePosts.Mutation true None)
  ∧ (let '(t'', answer') :=
       Backend.update_posts {[ "title" := VStr (lit "X") ]}
         (lit "p1") (lit "mallory") [post] in
     t'' = [post]
     ∧ ∃ e, updatePost (lit "p1") {[ "title" := VStr (lit "X") ]} (lit "mallory")
              (Resolved answer')
            = Resolved (Result None (Some e))).
Proof.
  cbn zeta. split; [by vm_compute|]. split; [done|]. split; [by vm_compute|].
  split; [by vm_compute|]. eexists. vm_compute. reflexivity.
Qed.

End posts_service.

Section service_results.
Import Supabase PostsService Contract.

Lemma truthy_fault {A} (e : thrown) :
  thrown_to_boolean e = true → ¬ falsy_fault (@Rejected A e).
Proof. intros H (e' & [= <-] & H'). congruence. Qed.

Lemma answered_fault {A} (a : A) : ¬ falsy_fault (Resolved a).
Proof. intros (e & H & _). discriminate H. Qed.

Lemma select_posts_settles q : settles q (select_posts q).
Proof.
  unfold settles, discriminated, empty_result, select_posts.
  destruct q as [[d [e|] c]|e]; cbn.
  - eexists. split; [done|]. left. split; [apply answered_fault|]. by right.
  - eexists. split; [done|]. left. split; [apply answered_fault|]. left.
    split; [|done]. cbn. eauto.
  - eexists. split; [done|]. cbn. destruct (thrown_to_boolean e) eqn:E.
    + left. split; [by apply truthy_fault|]. by right.
    + right. split; [|done]. by exists e.
Qed.

Lemma mutate_single_settles q : settles q (mutate_single q).
Proof.
  unfold settles, discriminated, empty_result, mutate_single.
  destruct q as [[d [e|] c]|e]; cbn.
  - eexists. split; [done|]. left. split; [apply answered_fault|]. by right.
  - eexists. split; [done|]. left. split; [apply answered_fault|]. left.
    split; [|done]. cbn. eauto.
  - eexists. split; [done|]. cbn. destruct (thrown_to_boolean e) eqn:E.
    + left. split; [by apply truthy_fault|]. by right.
    + right. split; [|done]. by exists e.
Qed.

Lemma deletePost_settles postId userId q :
  settles_outcome q (deletePost postId userId q).
Proof.
  unfold settles_outcome, discriminated_outcome, deletePost.
  destruct q as [[d [e|] c]|e]; cbn.
  - eexists. split; [done|]. left. split; [apply answered_fault|]. by right.
  - eexists. split; [done|]. left. split; [apply answered_fault|]. by left.
  - eexists. split; [done|]. cbn. destruct (thrown_to_boolean e) eqn:E.
    + left. split; [by apply truthy_fault|]. by right.
    + right. split; [|done]. by exists e.
Qed.

Lemma getPostStats_settles q : settles q (getPostStats q).
Proof.
  unfold settles, discriminated, empty_result, getPostStats.
  destruct q as [[[d|] [e|] c]|e]; cbn.
  - eexists. split; [done|]. left. split; [apply answered_fault|]. by right.
  - eexists. split; [done|]. left. split; [apply answered_fault|]. left.
    split; [|done]. cbn. eauto.
  - eexists. split; [done|]. left. split; [apply answered_fault|]. by right.
  - eexists. split; [done|]. left. split; [apply answered_fault|]. by right.
  - eexists. split; [done|]. cbn. destruct (thrown_to_boolean e) eqn:E.
    + left. split; [by apply truthy_fault|]. by right.
    + right. split; [|done]. by exists e.
Qed.

(** A result built in a [catch] block. *)
Lemma caught_result {A} (e : thrown) :
  let r : result A := Result None (Some (ECaught e)) in
  (discriminated r ∨ empty_result r)
  ∧ (¬ falsy_fault (@Rejected (response rows) e) → discriminated r).
Proof.
  cbv zeta. unfold discriminated, empty_result. cbn.
  destruct (thrown_to_boolean e) eqn:E.
  - split; [left; by right|]. intros _. by right.
  - split; [by right|]. intros H. exfalso. apply H. by exists e.
Qed.

Lemma searchPosts_settles query qAll q qProfiles qAuthors :
  ∃ r, searchPosts query qAll q qProfiles qAuthors = Resolved r
       ∧ (discriminated r ∨ empty_result r)
       ∧ ((∀ x, x ∈ [qAll; q; qProfiles; qAuthors] → ¬ falsy_fault x) →
          discriminated r).
Proof.
  assert (∀ d : rows, discriminated (Result (Some d) None)) as Hdata
    by (intros d; left; split; [cbn; eauto|done]).
  assert (∀ e, @discriminated rows (Result None (Some (EPostgrest e))))
    as Herr by (intros e; by right).
  unfold searchPosts. destruct (trim query).
  { destruct (select_posts_settles qAll) as (r & Hr & [[Hf Hd]|[Hf He]]);
      exists r; (split; [exact Hr|]).
    - split; [by left|]. by intros _.
    - split; [by right|]. intros H. exfalso. apply (H qAll); [|done].
      apply elem_of_cons. by left. }
  destruct q as [[d [e|] c]|e]; cbn.
  - eexists. split; [done|]. split; [left|intros _]; apply Herr.
  - destruct qProfiles as [[[[|p ps]|] ep cp]|e]; cbn.
    + eexists. split; [done|]. split; [left|intros _]; apply Hdata.
    + destruct qAuthors as [ra|e]; cbn.
      * eexists. split; [done|]. split; [left|intros _]; apply Hdata.
      * eexists. split; [done|].
        destruct (@caught_result rows e) as [H1 H2]. split; [exact H1|].
        intros H. apply H2. apply (H (Rejected e)).
        do 3 (apply elem_of_cons; right). apply elem_of_cons. by left.
    + eexists. split; [done|]. split; [left|intros _]; apply Hdata.
    + eexists. split; [done|].
      destruct (@caught_result rows e) as [H1 H2]. split; [exact H1|].
      intros H. apply H2. apply (H (Rejected e)).
      do 2 (apply elem_of_cons; right). apply elem_of_cons. by left.
  - eexists. split; [done|].
    destruct (@caught_result rows e) as [H1 H2]. split; [exact H1|].
    intros H. apply H2. apply (H (Rejected e)).
    apply elem_of_cons; right. apply elem_of_cons. by left.
Qed.

Lemma record_resolves r bump q t :
  (StatsService.record r bump q t).2 = Resolved () ↔ accepted q.
Proof.
  unfold StatsService.record, accepted.
  destruct q as [[d [e|] c]|e]; cbn; split; try done.
  - intros (answer & [= <-] & H). done.
  - eauto.
  - intros (answer & [=] & _).
Qed.

Lemma record_throws r bump q t :
  throws (StatsService.record r bump q t).2 ↔ ¬ accepted q.
Proof.
  rewrite <- (record_resolves r bump q t). unfold throws.
  destruct (StatsService.record r bump q t) as [t' [[]|e]]; cbn; split.
  - intros [e [=]].
  - intros H. by destruct H.
  - intros _ [=].
  - eauto.
Qed.

(** What a record operation throws: the backend's error object, or the
    fault of the call, and nothing else. *)
Lemma record_rethrows r bump q t e :
  (StatsService.record r bump q t).2 = Rejected e ↔ fault_of q e.
Proof.
  unfold StatsService.record, fault_of.
  destruct q as [[d [pe|] c]|e']; cbn; split.
  - intros [= <-]. left. by exists (Response d (Some pe) c), pe.
  - intros [(answer & pe' & [= <-] & [= <-] & ->)|H]; [done|discriminate H].
  - intros H. discriminate H.
  - intros [(answer & pe' & [= <-] & H & _)|H]; discriminate H.
  - intros [= ->]. by right.
  - intros [(answer & pe' & H & _)|[= ->]]; [discriminate H|done].
Qed.

(** C7, refuted as stated: with a backend error as the answer,
    [recordDownload] returns nothing, it throws. *)
Lemma recordDownload_throws :
  ¬ ∃ r, (StatsService.recordDownload (lit "u1") (lit "notes.pdf")
            (lit "application/pdf") (Some (lit "f1"))
            (Resolved (Response None (Some (PgError (lit "23503") (lit "violates foreign key constraint"))) None))
            StatsService.statsService).2
         = Resolved r.
Proof. intros [r H]. vm_compute in H. discriminate H. Qed.

(** C7, as the code has it.  Whatever the backend answers, and also when the
    call itself fails, every function of the posts service returns and does
    not throw.  What it returns is a discriminated [{ data, error }] or
    [{ success, error }], with one exception: when the call fails with a
    falsy value, the [catch] block hands that value on as the error, and the
    result carries neither data nor an error that a caller can see.  The
    statistics service follows another convention: its record operations
    return when the backend accepted the request and throw otherwise, and
    what they throw is the backend's error object or the fault of the call;
    [loadStats] rethrows the fault of its queries. *)
Theorem services_error_convention :
  (∀ q, settles q (getAllPosts q))
  ∧ (∀ type q, settles q (getPostsByType type q))
  ∧ (∀ userId q, settles q (getUserPosts userId q))
  ∧ (∀ post q, settles q (createPost post q))
  ∧ (∀ postId updates userId q, settles q (updatePost postId updates userId q))
  ∧ (∀ postId userId q, settles_outcome q (deletePost postId userId q))
  ∧ (∀ query qAll q qProfiles qAuthors,
       ∃ r, searchPosts query qAll q qProfiles qAuthors = Resolved r
            ∧ (discriminated r ∨ empty_result r)
            ∧ ((∀ x, x ∈ [qAll; q; qProfiles; qAuthors] → ¬ falsy_fault x) →
               discriminated r))
  ∧ (∀ q, settles q (getPostStats q))
  ∧ (∀ uid fileName fileType fileId q t,
       let r := (StatsService.recordDownload uid fileName fileType fileId q t).2 in
       (r = Resolved () ↔ accepted q) ∧ (throws r ↔ ¬ accepted q)
       ∧ (∀ e, r = Rejected e ↔ fault_of q e))
  ∧ (∀ uid eventId eventName q t,
       let r := (StatsService.recordEventAttendance uid eventId eventName q t).2 in
       (r = Resolved () ↔ accepted q) ∧ (throws r ↔ ¬ accepted q)
       ∧ (∀ e, r = Rejected e ↔ fault_of q e))
  ∧ (∀ uid eventId q t,
       let r := (StatsService.removeEventAttendance uid eventId q t).2 in
       (r = Resolved () ↔ accepted q) ∧ (throws r ↔ ¬ accepted q)
       ∧ (∀ e, r = Rejected e ↔ fault_of q e))
  ∧ (∀ uid createdAt now q t e,
       (StatsService.loadStats uid createdAt now q t).2 = Rejected e
       ↔ q = Rejected e).
Proof.
  split; [intros; apply select_posts_settles|].
  split; [intros; apply select_posts_settles|].
  split; [intros; apply select_posts_settles|].
  split; [intros; apply mutate_single_settles|].
  split; [intros; apply mutate_single_settles|].
  split; [intros; apply deletePost_settles|].
  split; [intros; apply searchPosts_settles|].
  split; [intros; apply getPostStats_settles|].
  split.
  { intros. split; [apply record_resolves|].
    split; [apply record_throws|]. intros e. apply record_rethrows. }
  split.
  { intros. split; [apply record_resolves|].
    split; [apply record_throws|]. intros e. apply record_rethrows. }
  split.
  { intros. split; [apply record_resolves|].
    split; [apply record_throws|]. intros e. apply record_rethrows. }
  intros uid createdAt now q t e.
  unfold StatsService.loadStats. destruct q as [[dl ev]|e']; cbn; [done|].
  split; [by intros [= ->]|by intros [= ->]].
Qed.

End service_results.

Section auth_context.
Import AuthContext.

(** C6.  When [signUp] answers with a user that has no [email_confirmed_at]
    and with no session, [register] returns [success: true] together with
    [needsEmailConfirmation: true] and the instruction to confirm by email;
    the provider's user and session are left as they were, so nobody is
    signed in by it; and the result differs from what [register] returns on
    a failure and on a registration that needs no confirmation. *)
Theorem register_awaits_confirmation uid s :
  let u := {| id := uid; email_confirmed_at := None |} in
  let q := Resolved {| data_user := Some u; data_session := None;
                       auth_error := None |} in
  let pending := {| success := true; error := None;
                    needsEmailConfirmation := Some true;
                    message := Some confirm_message |} in
  (register q s).2 = Resolved pending
  ∧ confirm_message ≠ []
  ∧ user (register q s).1 = user s
  ∧ session (register q s).1 = session s
  ∧ isAuthenticated (register q s).1 = isAuthenticated s
  ∧ (∀ q' s' r, (register q' s').2 = Resolved r → r ≠ pending →
       (success r = false ∧ needsEmailConfirmation r = None)
       ∨ (success r = true ∧ needsEmailConfirmation r = Some false)).
Proof.
  cbn zeta. repeat split.
  - done.
  - intros q' s' r Hr Hne. unfold register in Hr. cbn in Hr.
    destruct q' as [[[u'|] se [m|]]|e]; cbn in Hr;
      try (injection Hr as <-; cbn; by left).
    destruct (negb (truthy (email_confirmed_at u'))
              && negb (bool_decide (is_Some se)));
      injection Hr as <-; [done|cbn; by right].
Qed.

End auth_context.

Section library_screen.
Import Supabase ELibraryScreen Contract.

Variable documentDirectory : jsstring.
Variable userId : option jsstring.

(** C8.  Two files with the same display name and different ids get
    different local file names; the file name is a function of the file. *)
Theorem fileName_distinct_ids (f g : LibraryFile) :
  name f = name g → id f ≠ id g → fileName f ≠ fileName g.
Proof.
  intros Hn Hi E. apply Hi. unfold fileName in E. rewrite Hn in E.
  by apply app_inv_tail in E.
Qed.

Abbreviation handle := (handleDownload documentDirectory userId).
Abbreviation localUri file := (downloadDir documentDirectory ++ fileName file).

(** A download that the user confirms, with the directory in place and the
    transfer answering [status] and [bytes]. *)
Lemma confirmed_download file a w status bytes :
  fileName file ∉ downloadedFiles w →
  pressed a = Download →
  directory_ready a →
  downloadResult a = Resolved (status, bytes) →
  handle file a w
  = onPressDownload documentDirectory userId file a
      (alert (lit "Download")
         (lit "Download " ++ [34%N] ++ name file ++ [34%N]
          ++ lit " for offline access?") w)
  ∧ disk (handle file a w) = <[localUri file := bytes]> (disk w)
  ∧ transfers (handle file a w) = transfers w ++ [(url file, localUri file)].
Proof.
  intros Hnew Hp Hdir Hdl. unfold handleDownload.
  rewrite bool_decide_eq_false_2 by done. rewrite Hp.
  split; [done|]. unfold onPressDownload.
  destruct Hdir as [-> | [-> ->]]; rewrite Hdl; cbn;
    destruct (status =? 200); cbn;
    try destruct (UseStats.recordDownload _ _ _ _ _ _) as [t [r|e]]; by cbn.
Qed.

(** C3.  When a first [handleDownload] of a file goes through (the user
    confirms and the transfer answers 200), it leaves the bytes under the
    path of the key [{id}_{sanitized name}] and the key in the
    downloaded-set; a second [handleDownload] of the same file then only
    shows "Already Downloaded": no transfer is started and the local files
    and every other part of the state stay as the first call left them. *)
Theorem download_twice_transfers_once file a1 a2 w bytes :
  fileName file ∉ downloadedFiles w →
  pressed a1 = Download →
  directory_ready a1 →
  downloadResult a1 = Resolved (200, bytes) →
  let w1 := handle file a1 w in
  let w2 := handle file a2 w1 in
  fileName file ∈ downloadedFiles w1
  ∧ disk w1 = <[localUri file := bytes]> (disk w)
  ∧ transfers w1 = transfers w ++ [(url file, localUri file)]
  ∧ w2 = alert (lit "Already Downloaded")
               (lit "This file is already available offline.") w1
  ∧ disk w2 = disk w1
  ∧ transfers w2 = transfers w1.
Proof.
  intros Hnew Hp Hdir Hdl w1 w2.
  destruct (confirmed_download file a1 w 200 bytes Hnew Hp Hdir Hdl)
    as (Hw1 & Hdisk & Htr).
  assert (fileName file ∈ downloadedFiles w1) as Hin.
  { unfold w1. rewrite Hw1. unfold onPressDownload.
    destruct Hdir as [-> | [-> ->]]; rewrite Hdl; cbn;
      destruct (UseStats.recordDownload _ _ _ _ _ _) as [t [r|e]]; cbn;
      set_solver. }
  assert (w2 = alert (lit "Already Downloaded")
                     (lit "This file is already available offline.") w1) as Hw2.
  { unfold w2, handleDownload. by rewrite bool_decide_eq_true_2. }
  repeat split; try done; by rewrite Hw2.
Qed.

(** What one [handleDownload] can do to the downloaded-set and to the
    requests sent to the backend: nothing, unless the transfer answered
    200. *)
Lemma registered_only_on_200 file a w :
  (∀ bytes, downloadResult a ≠ Resolved (200, bytes)) →
  downloadedFiles (handle file a w) = downloadedFiles w
  ∧ stats (handle file a w) = stats w.
Proof.
  intros Hdl. unfold handleDownload. case_bool_decide; [done|].
  destruct (pressed a); try done. unfold onPressDownload.
  destruct (dirInfo a) as [[|]|e]; try done; cbn.
  - destruct (downloadResult a) as [[status bytes]|e] eqn:E; try done.
    destruct (status =? 200) eqn:Es; [|done].
    apply Z.eqb_eq in Es as ->. by destruct (Hdl bytes).
  - destruct (madeDir a) as [[]|e]; try done.
    destruct (downloadResult a) as [[status bytes]|e'] eqn:E; try done.
    destruct (status =? 200) eqn:Es; [|done].
    apply Z.eqb_eq in Es as ->. by destruct (Hdl bytes).
Qed.

(** C4.  When the transfer of a confirmed download answers a status other
    than 200, [handleDownload] ends on the alert "Failed to download file",
    the downloaded-set is the one it started from and the statistics
    singleton has sent and cached nothing new.  More generally a
    [handleDownload] whose transfer did not answer 200 changes neither. *)
Theorem failed_transfer_not_registered file a w status bytes :
  fileName file ∉ downloadedFiles w →
  pressed a = Download →
  directory_ready a →
  downloadResult a = Resolved (status, bytes) →
  status ≠ 200 →
  let w' := handle file a w in
  last (alerts w') = Some (lit "Error", lit "Failed to download file")
  ∧ downloadedFiles w' = downloadedFiles w
  ∧ StatsService.sent (stats w') = StatsService.sent (stats w)
  ∧ stats w' = stats w
  ∧ (∀ file0 a0 w0,
       (∀ bytes0, downloadResult a0 ≠ Resolved (200, bytes0)) →
       downloadedFiles (handle file0 a0 w0) = downloadedFiles w0
       ∧ StatsService.sent (stats (handle file0 a0 w0))
         = StatsService.sent (stats w0)).
Proof.
  intros Hnew Hp Hdir Hdl Hst w'. subst w'.
  assert (∀ b, downloadResult a ≠ Resolved (200, b)) as Hno.
  { intros b. rewrite Hdl. intros [= -> _]. done. }
  destruct (registered_only_on_200 file a w Hno) as [Hset Hstats].
  split; [|split; [exact Hset|split; [by rewrite Hstats|split; [exact Hstats|]]]].
  - destruct (confirmed_download file a w status bytes Hnew Hp Hdir Hdl)
      as (-> & _ & _).
    unfold onPressDownload.
    apply Z.eqb_neq in Hst.
    destruct Hdir as [-> | [-> ->]]; rewrite Hdl; cbn; rewrite Hst; cbn;
      by rewrite last_snoc.
  - intros file0 a0 w0 H0.
    destruct (registered_only_on_200 file0 a0 w0 H0) as [-> ->]. done.
Qed.

End library_screen.

(** * The theorems at work on concrete inputs *)

Section examples.
Import Supabase Sample.

(** The cache holds posts p2 and p1; an UPDATE retitles p1, a DELETE
    removes p2, and an INSERT whose refresh fails changes nothing. *)
Lemma posts_cache_after_events_witness :
  let p1 : obj := {[ "id" := VStr (lit "p1"); "title" := VStr (lit "T");
                     "content" := VStr (lit "C") ]} in
  let p2 : obj := {[ "id" := VStr (lit "p2"); "title" := VStr (lit "U") ]} in
  let update := UsePosts.Payload UsePosts.UPDATE
                  {[ "id" := VStr (lit "p1"); "title" := VStr (lit "T2") ]} ∅ in
  let delete := UsePosts.Payload UsePosts.DELETE ∅ {[ "id" := VStr (lit "p2") ]} in
  let insert := UsePosts.Payload UsePosts.INSERT {[ "id" := VStr (lit "p3") ]} ∅ in
  let acts := [UsePosts.Change update; UsePosts.Change delete;
               UsePosts.Change insert;
               UsePosts.Refreshed (Rejected (JsError (lit "Network request failed")))] in
  let s := UsePosts.State [p2; p1] false None in
  NoDup (PostsCache.ids (PostsCache.rebase UsePosts.all acts (UsePosts.posts s) []).1)
  ∧ UsePosts.posts (UsePosts.deliver UsePosts.all acts s)
    = [ {[ "id" := VStr (lit "p1"); "title" := VStr (lit "T2");
           "content" := VStr (lit "C") ]} ].
Proof.
  intros p1 p2 update delete insert acts s.
  assert (NoDup (PostsCache.ids
            (PostsCache.rebase UsePosts.all acts (UsePosts.posts s) []).1)) as H
    by compute_done.
  split; [exact H|].
  destruct (posts_cache_after_events UsePosts.all acts s H) as [-> _].
  vm_compute. reflexivity.
Defined.

(** The scenario of the specification: a post created with title "T" and
    content "C" sits second in the cache; an UPDATE carrying only the new
    title leaves it second, with the content it had. *)
Example update_keeps_position :
  let p1 : obj := {[ "id" := VStr (lit "p1"); "title" := VStr (lit "T");
                     "content" := VStr (lit "C");
                     "type" := VStr (lit "discussion");
                     "author_id" := VStr (lit "U") ]} in
  let p2 : obj := {[ "id" := VStr (lit "p2"); "title" := VStr (lit "other") ]} in
  let update := UsePosts.Payload UsePosts.UPDATE
                  {[ "id" := VStr (lit "p1"); "title" := VStr (lit "T2") ]} ∅ in
  UsePosts.posts
    (UsePosts.onPostChange update (UsePosts.State [p2; p1] false None))
  = [p2; <["title" := VStr (lit "T2")]> p1].
Proof. vm_compute. reflexivity. Qed.

Example fileName_of_notes :
  ELibraryScreen.fileName (notes "f1") = lit "f1_Week_1__notes.pdf".
Proof. reflexivity. Qed.

Lemma fileName_distinct_ids_witness :
  ELibraryScreen.name (notes "f1") = ELibraryScreen.name (notes "f2")
  ∧ ELibraryScreen.id (notes "f1") ≠ ELibraryScreen.id (notes "f2")
  ∧ ELibraryScreen.fileName (notes "f1") ≠ ELibraryScreen.fileName (notes "f2").
Proof.
  assert (ELibraryScreen.id (notes "f1") ≠ ELibraryScreen.id (notes "f2")) as H
    by (intros E; discriminate E).
  split; [reflexivity|]. split; [exact H|].
  apply fileName_distinct_ids; [reflexivity|exact H].
Defined.

Lemma download_twice_transfers_once_witness :
  let dir := lit "file:///data/" in
  let uid := Some (lit "u1") in
  let a := transfer_answers 200 in
  let w1 := ELibraryScreen.handleDownload dir uid (notes "f1") a empty_screen in
  let w2 := ELibraryScreen.handleDownload dir uid (notes "f1") a w1 in
  ((ELibraryScreen.fileName (notes "f1")
    ∉ ELibraryScreen.downloadedFiles empty_screen)
   ∧ ELibraryScreen.pressed a = ELibraryScreen.Download
   ∧ Contract.directory_ready a
   ∧ ELibraryScreen.downloadResult a = Resolved (200, [37; 80; 68; 70]%N))
  ∧ ELibraryScreen.disk w2
    = {[ lit "file:///data/downloads/f1_Week_1__notes.pdf" := [37; 80; 68; 70]%N ]}
  ∧ ELibraryScreen.transfers w2
    = [(lit "https://files.example/notes.pdf",
        lit "file:///data/downloads/f1_Week_1__notes.pdf")]
  ∧ last (ELibraryScreen.alerts w2)
    = Some (lit "Already Downloaded", lit "This file is already available offline.").
Proof.
  intros dir uid a w1 w2.
  assert (ELibraryScreen.fileName (notes "f1")
          ∉ ELibraryScreen.downloadedFiles empty_screen) as H1
    by apply not_elem_of_empty.
  assert (ELibraryScreen.pressed a = ELibraryScreen.Download) as H2
    by reflexivity.
  assert (Contract.directory_ready a) as H3 by (right; split; reflexivity).
  assert (ELibraryScreen.downloadResult a = Resolved (200, [37; 80; 68; 70]%N))
    as H4 by reflexivity.
  split; [by repeat split|].
  destruct (download_twice_transfers_once dir uid (notes "f1") a a empty_screen
              [37; 80; 68; 70]%N H1 H2 H3 H4)
    as (_ & Hd1 & Ht1 & Hw2 & Hd2 & Ht2).
  fold w1 in Hd1, Ht1, Hw2, Hd2, Ht2. fold w2 in Hw2, Hd2, Ht2.
  split; [by rewrite Hd2, Hd1|]. split; [by rewrite Ht2, Ht1|].
  rewrite Hw2. cbn. by rewrite last_snoc.
Defined.

Lemma failed_transfer_not_registered_witness :
  let dir := lit "file:///data/" in
  let uid := Some (lit "u1") in
  let a := transfer_answers 404 in
  let w' := ELibraryScreen.handleDownload dir uid (notes "f1") a empty_screen in
  ((ELibraryScreen.fileName (notes "f1")
    ∉ ELibraryScreen.downloadedFiles empty_screen)
   ∧ ELibraryScreen.pressed a = ELibraryScreen.Download
   ∧ Contract.directory_ready a
   ∧ ELibraryScreen.downloadResult a = Resolved (404, [37; 80; 68; 70]%N)
   ∧ 404 ≠ 200)
  ∧ last (ELibraryScreen.alerts w') = Some (lit "Error", lit "Failed to download file")
  ∧ ELibraryScreen.downloadedFiles w' = ∅
  ∧ StatsService.sent (ELibraryScreen.stats w') = [].
Proof.
  intros dir uid a w'.
  assert (ELibraryScreen.fileName (notes "f1")
          ∉ ELibraryScreen.downloadedFiles empty_screen) as H1
    by apply not_elem_of_empty.
  assert (ELibraryScreen.pressed a = ELibraryScreen.Download) as H2
    by reflexivity.
  assert (Contract.directory_ready a) as H3 by (right; split; reflexivity).
  assert (ELibraryScreen.downloadResult a = Resolved (404, [37; 80; 68; 70]%N))
    as H4 by reflexivity.
  assert (404 ≠ 200) as H5 by lia.
  split; [by repeat split|].
  destruct (failed_transfer_not_registered dir uid (notes "f1") a empty_screen
              404 [37; 80; 68; 70]%N H1 H2 H3 H4 H5)
    as (Ha & Hs & Hr & _).
  fold w' in Ha, Hs, Hr. by rewrite Ha, Hs, Hr.
Defined.

(** A refresh that succeeds installs the rows fetched; the events that
    follow are read against them. *)
Example refresh_installs_rows :
  let p1 : obj := {[ "id" := VStr (lit "p1"); "title" := VStr (lit "T") ]} in
  let p2 : obj := {[ "id" := VStr (lit "p2"); "title" := VStr (lit "U") ]} in
  let p3 : obj := {[ "id" := VStr (lit "p3"); "title" := VStr (lit "V") ]} in
  let insert := UsePosts.Payload UsePosts.INSERT p3 ∅ in
  let delete := UsePosts.Payload UsePosts.DELETE ∅ {[ "id" := VStr (lit "p2") ]} in
  let acts := [UsePosts.Change insert;
               UsePosts.Refreshed (Resolved (Response (Some [p3; p2; p1]) None None));
               UsePosts.Change delete] in
  PostsCache.rebase UsePosts.all acts [p2; p1] []
  = (PostsService.with_extras <$> [p3; p2; p1], [delete])
  ∧ UsePosts.deliver UsePosts.all acts (UsePosts.State [p2; p1] false None)
    = UsePosts.State (PostsService.with_extras <$> [p3; p1]) false None.
Proof. split; vm_compute; reflexivity. Qed.

(** A statistics session: a listener subscribes, the counters are loaded,
    a download is recorded, the singleton is cleared, and a later load
    reaches nobody. *)
Example stats_session :
  let ok : await (response unit) := Resolved (Response None None None) in
  let counts := Resolved (Response None None (Some 2%N), Response None None None) in
  let ops := [StatsService.Subscribe 7%nat;
              StatsService.LoadStats (lit "u1") 0 1000 counts;
              StatsService.RecordDownload (lit "u1") (lit "a.pdf") (lit "pdf") None ok;
              StatsService.Clear;
              StatsService.LoadStats (lit "u1") 0 1000 counts] in
  let t := StatsService.run ops StatsService.statsService in
  StatsService.delivered t
  = [(7%nat, StatsService.Stats 2 0 1); (7%nat, StatsService.Stats 3 0 1)]
  ∧ StatsService.getCurrentStats t = Some (StatsService.Stats 2 0 1)
  ∧ StatsService.listeners t = [].
Proof. repeat split. Qed.

End examples.

(** * Further properties of the posts service *)

Section posts_search.
Import Supabase PostsService PostsCache PostsSearch.

Lemma findIndex_none (f : obj → bool) (l : rows) :
  Forall (λ y, f y = false) l → findIndex f l = -1.
Proof.
  induction 1 as [|y l Hy _ IH]; [done|]. cbn. by rewrite Hy, IH.
Qed.

Lemma findIndex_bounds (f : obj → bool) (l : rows) :
  -1 ≤ findIndex f l < Z.of_nat (length l) ∨ (l = [] ∧ findIndex f l = -1).
Proof.
  induction l as [|y l IH]; [by right|]. left. cbn [findIndex length].
  destruct (f y); [lia|].
  destruct (findIndex f l <? 0) eqn:E; [lia|].
  apply Z.ltb_ge in E. destruct IH as [IH|[-> IH]]; [lia|]. cbn in *. lia.
Qed.

(** The index found past a prefix where nothing matches. *)
Lemma findIndex_skip (f : obj → bool) (pre l : rows) :
  Forall (λ y, f y = false) pre →
  findIndex f (pre ++ l)
  = if findIndex f l <? 0 then -1 else Z.of_nat (length pre) + findIndex f l.
Proof.
  induction 1 as [|y pre Hy _ IH].
  - cbn. destruct (findIndex f l <? 0) eqn:E; [|done].
    apply Z.ltb_lt in E. destruct (findIndex_bounds f l) as [?|[_ ?]]; lia.
  - cbn [app findIndex length]. rewrite Hy, IH.
    destruct (findIndex f l <? 0) eqn:E; [done|].
    apply Z.ltb_ge in E.
    destruct (Z.of_nat (length pre) + findIndex f l <? 0) eqn:E'.
    + apply Z.ltb_lt in E'. lia.
    + lia.
Qed.

(** The index found when the prefix holds a match. *)
Lemma findIndex_early (f : obj → bool) (pre l : rows) :
  Exists (λ y, f y = true) pre →
  0 ≤ findIndex f (pre ++ l) < Z.of_nat (length pre).
Proof.
  induction pre as [|y pre IH]; intros H; [by apply Exists_nil in H|].
  cbn [app findIndex length]. destruct (f y) eqn:Hy; [lia|].
  apply Exists_cons in H as [H|H]; [congruence|].
  specialize (IH H).
  destruct (findIndex f (pre ++ l) <? 0) eqn:E; [apply Z.ltb_lt in E|]; lia.
Qed.

(** A post is the first of its id exactly when no earlier post has it. *)
Lemma first_of_its_id (pre suf : rows) (x : obj) :
  bool_decide (Z.of_nat (length pre)
               = findIndex (λ p, strict_eq (get p "id") (get x "id"))
                   (pre ++ x :: suf))
  = negb (bool_decide (id_of x ∈ ids pre)).
Proof.
  set (f := λ p : obj, strict_eq (get p "id") (get x "id")).
  destruct (decide (id_of x ∈ ids pre)) as [Hin|Hnin].
  - rewrite (bool_decide_eq_true_2 _ Hin). cbn.
    apply bool_decide_eq_false_2.
    assert (Exists (λ y, f y = true) pre) as He.
    { apply Exists_exists. unfold ids in Hin.
      apply list_elem_of_fmap in Hin as (y & Hy & Hin).
      exists y. split; [done|]. unfold f. apply strict_eq_true.
      symmetry. exact Hy. }
    pose proof (findIndex_early f pre (x :: suf) He). lia.
  - rewrite (bool_decide_eq_false_2 _ Hnin). cbn.
    apply bool_decide_eq_true_2.
    rewrite findIndex_skip.
    + assert (f x = true) as Hx by (unfold f; by apply strict_eq_true).
      cbn [findIndex]. rewrite Hx. cbn. lia.
    + apply Forall_forall. intros y Hy. unfold f.
      destruct (strict_eq (get y "id") (get x "id")) eqn:E; [|done].
      apply strict_eq_true in E. exfalso. apply Hnin. unfold ids.
      apply list_elem_of_fmap. exists y. split; [|done]. by symmetry.
Qed.

Lemma uniquePosts_from (suf pre : rows) :
  snd <$>
    List.filter
      (λ '(index, post),
         bool_decide (Z.of_nat index =
           findIndex (λ p, strict_eq (get p "id") (get post "id")) (pre ++ suf)))
      (imap (λ index post, (length pre + index, post)%nat) suf)
  = first_by_id (ids pre) suf.
Proof.
  revert pre. induction suf as [|x suf IH]; intros pre; [done|].
  rewrite imap_cons. cbn [List.filter first_by_id].
  rewrite Nat.add_0_r, first_of_its_id.
  assert (imap ((λ index post, (length pre + index, post)%nat) ∘ S) suf
          = imap (λ index post, (length (pre ++ [x]) + index, post)%nat) suf)
    as ->.
  { apply imap_ext. intros i y _. cbn. rewrite length_app. cbn.
    f_equal. lia. }
  replace (pre ++ x :: suf) with ((pre ++ [x]) ++ suf)
    by (by rewrite <- app_assoc).
  specialize (IH (pre ++ [x])).
  replace (ids (pre ++ [x])) with (ids pre ++ [id_of x]) in IH
    by (unfold ids; by rewrite fmap_app).
  destruct (bool_decide (id_of x ∈ ids pre)) eqn:E; cbn.
  - rewrite IH. clear IH.
    apply bool_decide_eq_true in E.
    assert (∀ l seen, id_of x ∈ seen →
              first_by_id (seen ++ [id_of x]) l = first_by_id seen l) as Hs.
    { induction l as [|y l IHl]; intros seen Hseen; [done|]. cbn.
      destruct (decide (id_of y ∈ seen)) as [Hy|Hy].
      - rewrite (bool_decide_eq_true_2 _ Hy).
        rewrite bool_decide_eq_true_2 by (apply elem_of_app; by left).
        by apply IHl.
      - rewrite (bool_decide_eq_false_2 _ Hy).
        rewrite bool_decide_eq_false_2.
        2:{ intros [H|H]%elem_of_app; [done|].
            apply list_elem_of_singleton in H. congruence. }
        f_equal.
        assert (∀ l a b, (∀ i, i ∈ a ↔ i ∈ b) →
                  first_by_id a l = first_by_id b l) as Hext.
        { clear. induction l as [|z l IHl]; intros a b Hab; [done|]. cbn.
          rewrite (bool_decide_ext _ _ (Hab (id_of z))).
          destruct (bool_decide (id_of z ∈ b)); [by apply IHl|].
          f_equal. apply IHl. intros i. rewrite !elem_of_app, Hab. done. }
        apply Hext. intros i. rewrite !elem_of_app, !list_elem_of_singleton.
        intuition (subst; auto). }
    by apply Hs.
  - by rewrite IH.
Qed.

(** [uniquePosts] keeps, of each id, the first post carrying it. *)
Lemma uniquePosts_first_by_id (combinedPosts : rows) :
  uniquePosts combinedPosts = first_by_id [] combinedPosts.
Proof. exact (uniquePosts_from combinedPosts []). Qed.

Lemma first_by_id_facts (l : rows) : ∀ seen,
  NoDup (ids (first_by_id seen l))
  ∧ (∀ i, i ∈ ids (first_by_id seen l) → i ∉ seen)
  ∧ first_by_id seen l `sublist_of` l
  ∧ (∀ i, i ∈ ids l → i ∈ seen ∨ i ∈ ids (first_by_id seen l)).
Proof.
  induction l as [|x l IH]; intros seen.
  - cbn. split; [constructor|]. split; [by intros i H%elem_of_nil|].
    split; [constructor|]. by intros i H%elem_of_nil.
  - cbn [first_by_id]. destruct (decide (id_of x ∈ seen)) as [Hx|Hx].
    + rewrite (bool_decide_eq_true_2 _ Hx).
      destruct (IH seen) as (H1 & H2 & H3 & H4).
      split; [done|]. split; [done|]. split; [by constructor|].
      intros i [->|Hi]%elem_of_cons; [by left|by apply H4].
    + rewrite (bool_decide_eq_false_2 _ Hx).
      destruct (IH (seen ++ [id_of x])) as (H1 & H2 & H3 & H4).
      split; [|split; [|split]].
      * cbn. apply NoDup_cons. split; [|done].
        intros Hin. apply (H2 _ Hin). apply elem_of_app. right.
        by apply list_elem_of_singleton.
      * cbn. intros i [->|Hi]%elem_of_cons; [done|].
        intros Hs. apply (H2 _ Hi). apply elem_of_app. by left.
      * by constructor.
      * cbn. intros i [->|Hi]%elem_of_cons.
        { right. apply elem_of_cons. by left. }
        destruct (H4 i Hi) as [[H|H]%elem_of_app|H].
        -- by left.
        -- apply list_elem_of_singleton in H as ->. right.
           apply elem_of_cons. by left.
        -- right. apply elem_of_cons. by right.
Qed.

Lemma first_by_id_nodup (l : rows) : ∀ seen,
  NoDup (ids l) → (∀ i, i ∈ ids l → i ∉ seen) → first_by_id seen l = l.
Proof.
  induction l as [|x l IH]; intros seen Hnd Hs; [done|].
  cbn in Hnd. apply NoDup_cons in Hnd as [Hx Hnd]. cbn [first_by_id].
  rewrite bool_decide_eq_false_2
    by (apply Hs; cbn; apply elem_of_cons; by left).
  f_equal. apply IH; [done|].
  intros i Hi [H|H]%elem_of_app.
  - apply (Hs i); [cbn; apply elem_of_cons; by right|done].
  - apply list_elem_of_singleton in H as ->. done.
Qed.

Lemma uniquePosts_first_by_id_nodup (combinedPosts : rows) :
  NoDup (ids (uniquePosts combinedPosts)).
Proof.
  rewrite uniquePosts_first_by_id.
  by destruct (first_by_id_facts combinedPosts []) as (H & _).
Qed.

(** X1.  The deduplication of [searchPosts] returns a sub-sequence of the
    combined rows in which no id occurs twice and no id is lost; rows that
    were already distinct come back unchanged. *)
Theorem uniquePosts_distinct (combinedPosts : rows) :
  NoDup (ids (uniquePosts combinedPosts))
  ∧ uniquePosts combinedPosts `sublist_of` combinedPosts
  ∧ (∀ i, i ∈ ids combinedPosts ↔ i ∈ ids (uniquePosts combinedPosts))
  ∧ (NoDup (ids combinedPosts) → uniquePosts combinedPosts = combinedPosts).
Proof.
  rewrite uniquePosts_first_by_id.
  destruct (first_by_id_facts combinedPosts []) as (H1 & H2 & H3 & H4).
  split; [done|]. split; [done|]. split.
  - intros i. split.
    + intros Hi. destruct (H4 i Hi) as [H|H]; [by apply elem_of_nil in H|done].
    + unfold ids. intros (y & -> & Hy)%list_elem_of_fmap.
      apply list_elem_of_fmap. exists y. split; [done|].
      by eapply elem_of_sublist.
  - intros Hnd. apply first_by_id_nodup; [done|].
    intros i _ H. by apply elem_of_nil in H.
Qed.

Lemma trimStart_blank s : blank s → trimStart s = [].
Proof. induction 1 as [|c s Hc _ IH]; [done|]. cbn. by rewrite Hc. Qed.

Lemma trimStart_nil_blank s : trimStart s = [] → blank s.
Proof.
  induction s as [|c s IH]; [constructor|]. cbn.
  destruct (is_space c) eqn:E; [|done]. intros H.
  constructor; [exact E|by apply IH].
Qed.

Lemma trimStart_head s c s' : trimStart s = c :: s' → is_space c = false.
Proof.
  induction s as [|a s IH]; [done|]. cbn.
  destruct (is_space a) eqn:E; [exact IH|]. by intros [= <- _].
Qed.

Lemma trim_blank s : trim s = [] ↔ blank s.
Proof.
  unfold trim. split.
  - intros H.
    assert (trimStart (reverse (trimStart s)) = []) as H'.
    { destruct (trimStart (reverse (trimStart s))) as [|c l]; [done|].
      rewrite reverse_cons in H. by destruct (reverse l). }
    apply trimStart_nil_blank in H'. unfold blank in H'.
    rewrite Forall_reverse in H'.
    destruct (trimStart s) as [|c s'] eqn:E; [by apply trimStart_nil_blank|].
    apply Forall_cons in H' as [Hc _].
    apply trimStart_head in E. congruence.
  - intros H. by rewrite (trimStart_blank s H).
Qed.

(** X2.  A search query made of white space only is answered as
    [getAllPosts] answers: none of the three search queries is read. *)
Theorem searchPosts_blank_query query qAll q qProfiles qAuthors :
  blank query →
  searchPosts query qAll q qProfiles qAuthors = getAllPosts qAll.
Proof.
  intros H%trim_blank. unfold searchPosts. by rewrite H.
Qed.

Lemma with_extras_id (post : obj) : id_of (with_extras post) = id_of post.
Proof.
  unfold id_of, get, with_extras. by rewrite !lookup_insert_ne.
Qed.

Lemma ids_with_extras (l : rows) : ids (with_extras <$> l) = ids l.
Proof.
  unfold ids. rewrite <- list_fmap_compose. apply list_fmap_ext.
  intros _ x _. apply with_extras_id.
Qed.

Lemma select_posts_distinct q r d :
  distinct_rows q → select_posts q = Resolved r →
  PostsService.data r = Some d → NoDup (ids d).
Proof.
  intros Hq. unfold select_posts.
  destruct q as [[[d0|] [e|] c]|e]; cbn; intros [= <-]; cbn; intros [= <-].
  - rewrite ids_with_extras. by eapply Hq.
  - constructor.
Qed.

(** X4.  When each single query answers with one row per id, a search
    never lists a post twice, whatever the lookup by author name adds. *)
Theorem searchPosts_no_duplicates query qAll q qProfiles qAuthors r d :
  distinct_rows qAll →
  distinct_rows q →
  searchPosts query qAll q qProfiles qAuthors = Resolved r →
  PostsService.data r = Some d →
  NoDup (ids d).
Proof.
  intros HqAll Hq. unfold searchPosts.
  destruct (trim query); [by apply select_posts_distinct|].
  destruct q as [[d0 [e|] c]|e]; cbn; try (by intros [= <-]).
  destruct qProfiles as [[[[|p ps]|] ep cp]|e']; cbn;
    try (by intros [= <-]);
    try (intros [= <-]; cbn; destruct d0 as [d0|]; intros [= <-];
         [rewrite ids_with_extras; by eapply Hq|constructor]).
  destruct qAuthors as [ra|e']; cbn; [|by intros [= <-]].
  intros [= <-]. cbn. intros [= <-].
  rewrite ids_with_extras. apply uniquePosts_first_by_id_nodup.
Qed.

Lemma count_type_cons t (p : obj) (d : rows) :
  count_type t (p :: d)
  = ((if strict_eq (get p "type") (Some (VStr (lit t))) then 1 else 0)
     + count_type t d)%nat.
Proof.
  unfold count_type. cbn.
  by destruct (strict_eq (get p "type") (Some (VStr (lit t)))).
Qed.

Lemma counts_partition (d : rows) :
  Forall typed d →
  length d
  = (count_type "announcement" d + count_type "event" d
     + count_type "discussion" d + count_type "help" d)%nat.
Proof.
  induction 1 as [|p d (t & Ht & Hp) _ IH]; [done|].
  rewrite !count_type_cons, Hp. cbn [length]. rewrite IH.
  unfold post_types in Ht.
  repeat (apply elem_of_cons in Ht as [->|Ht]);
    [| | | |by apply elem_of_nil in Ht];
    repeat match goal with
           | |- context [strict_eq ?a ?b] =>
               let v := eval vm_compute in (strict_eq a b) in
               change (strict_eq a b) with v
           end; cbv iota; lia.
Qed.

(** X3.  When every row carries one of the four post types, the statistics
    [getPostStats] returns count each post exactly once: the total is the
    number of rows and is the sum of the four per-type counts. *)
Theorem getPostStats_partition (d : rows) c :
  Forall typed d →
  ∃ st, getPostStats (Resolved (Response (Some d) None c))
        = Resolved (Result (Some st) None)
        ∧ total_posts st = length d
        ∧ total_posts st
          = (announcements st + events st + discussions st
             + help_requests st)%nat.
Proof.
  intros H. eexists. split; [reflexivity|]. split; [reflexivity|].
  cbn. by apply counts_partition.
Qed.

End posts_search.

(** * Further properties of the posts hook *)

Section posts_hook.
Import Supabase UsePosts PostsCache PostsHook Contract.

Lemma not_accepted_cases {A} (q : await (response A)) :
  ¬ accepted q →
  (∃ e, q = Rejected e) ∨ (∃ d e c, q = Resolved (Response d (Some e) c)).
Proof.
  intros H. destruct q as [[d [e|] c]|e]; eauto 6.
  exfalso. apply H. eexists. by split.
Qed.

Lemma accepted_cases {A} (q : await (response A)) :
  accepted q → ∃ d c, q = Resolved (Response d None c).
Proof. intros ([d e c] & -> & He). cbn in He. subst. eauto. Qed.

Lemma refused_cases {A} (q : await (response A)) :
  refused q →
  (∃ d e c, q = Resolved (Response d (Some e) c))
  ∨ (∃ e, q = Rejected e ∧ thrown_to_boolean e = true).
Proof.
  intros [([d e c] & e' & -> & He)|H]; [|by right].
  cbn in He. subst. left. eauto.
Qed.

Lemma answer_cases {A} (q : await (response A)) :
  accepted q ∨ refused q ∨ falsy_fault q.
Proof.
  destruct q as [[d [e|] c]|e].
  - right. left. left. by exists (Response d (Some e) c), e.
  - left. eexists. by split.
  - destruct (thrown_to_boolean e) eqn:E.
    + right. left. right. by exists e.
    + right. right. by exists e.
Qed.

(** X5.  An answer to a mutation is accepted, refused (a backend error, or
    a call that fails with a truthy value) or a call that fails with a falsy
    value.  The three mutations of the hook report a success when it is
    accepted.  When it is refused they report 'Failed to ...', never the
    message of their own [catch], and leave the hook state, the cached posts
    included, as it was.  When the call fails with a falsy value
    [deletePost] reports the failure too, but [createPost] and [updatePost]
    report a success, with the hook state as it was. *)
Theorem mutations_keep_cache_on_failure s :
  (∀ q : await (response obj), accepted q ∨ refused q ∨ falsy_fault q)
  ∧ (∀ postData q,
     (accepted q → (createPost postData q s).2 = Mutation true None)
     ∧ (refused q →
        createPost postData q s
        = (s, Mutation false (Some "Failed to create post")))
     ∧ (falsy_fault q → createPost postData q s = (s, Mutation true None)))
  ∧ (∀ postId updates userId q,
     (accepted q → (updatePost postId updates userId q s).2 = Mutation true None)
     ∧ (refused q →
        updatePost postId updates userId q s
        = (s, Mutation false (Some "Failed to update post")))
     ∧ (falsy_fault q →
        updatePost postId updates userId q s = (s, Mutation true None)))
  ∧ (∀ postId userId q,
     (accepted q → (deletePost postId userId q s).2 = Mutation true None)
     ∧ (¬ accepted q →
        deletePost postId userId q s
        = (s, Mutation false (Some "Failed to delete post")))).
Proof.
  split; [apply answer_cases|].
  split; [|split].
  - intros postData q. split; [|split].
    + by intros (d & c & ->)%accepted_cases.
    + intros [(d & e & c & ->)|(e & -> & He)]%refused_cases; [done|].
      unfold createPost. cbn. by rewrite He.
    + intros (e & -> & He). unfold createPost. cbn. by rewrite He.
  - intros postId updates userId q. split; [|split].
    + by intros (d & c & ->)%accepted_cases.
    + intros [(d & e & c & ->)|(e & -> & He)]%refused_cases; [done|].
      unfold updatePost. cbn. by rewrite He.
    + intros (e & -> & He). unfold updatePost. cbn. by rewrite He.
  - intros postId userId q. split.
    + by intros (d & c & ->)%accepted_cases.
    + by intros [[e ->]|(d & e & c & ->)]%not_accepted_cases.
Qed.

Lemma filter_none {A} (f : A → bool) (l : list A) :
  Forall (λ x, f x = true) l → List.filter f l = l.
Proof. induction 1 as [|x l Hx _ IH]; [done|]. cbn. by rewrite Hx, IH. Qed.

Lemma with_extras_keeps_id (post : obj) :
  id_of (PostsService.with_extras post) = id_of post.
Proof.
  unfold id_of, get, PostsService.with_extras. by rewrite !lookup_insert_ne.
Qed.

(** X6.  Creating a post whose id the cache does not hold yet and then
    deleting that id gives back the cached posts as they were. *)
Theorem create_then_delete s postData userId (created : obj) i c c' :
  get created "id" = Some (VStr i) →
  Some (VStr i) ∉ ids (posts s) →
  let s1 := (createPost postData (Resolved (Response (Some created) None c)) s).1 in
  let s2 := (deletePost i userId (Resolved (Response None None c')) s1).1 in
  posts s1 = PostsService.with_extras created :: posts s
  ∧ posts s2 = posts s.
Proof.
  intros Hid Hfresh. cbn. split; [done|].
  pose proof (with_extras_keeps_id created) as Hk.
  unfold id_of in Hk. fold (PostsService.with_extras created). rewrite Hk, Hid.
  replace (strict_eq (Some (VStr i)) (Some (VStr i))) with true
    by (symmetry; by apply strict_eq_true).
  cbn. apply filter_none. apply Forall_forall. intros x Hx.
  apply negb_true_iff. destruct (strict_eq (get x "id") (Some (VStr i))) eqn:E;
    [|done].
  apply strict_eq_true in E. exfalso. apply Hfresh. rewrite <- E.
  unfold ids. apply list_elem_of_fmap. by exists x.
Qed.

Lemma keeps_merge_update old new post :
  keeps old (merge_update new post) = keeps old post.
Proof.
  unfold keeps. fold (id_of (merge_update new post)) (id_of post).
  by rewrite merge_update_id.
Qed.

(** X7.  An UPDATE and a DELETE can be applied in either order, and so can
    two DELETEs: the hook ends in the same state. *)
Theorem update_delete_commute n o n' o' n'' o'' s :
  let u := Payload UPDATE n o in
  let d := Payload DELETE n' o' in
  let d' := Payload DELETE n'' o'' in
  onPostChange d (onPostChange u s) = onPostChange u (onPostChange d s)
  ∧ onPostChange d' (onPostChange d s) = onPostChange d (onPostChange d' s).
Proof.
  cbn. unfold setPosts. cbn. split; f_equal.
  - rewrite filter_fmap_comm. f_equal.
    apply filter_ext_bool. intros x. apply keeps_merge_update.
  - rewrite !filter_filter_andb. apply filter_ext_bool. intros x.
    apply andb_comm.
Qed.

(** X8.  Two UPDATEs for different ids can be applied in either order. *)
Theorem updates_of_distinct_ids_commute (u u' : payload) s :
  eventType u = UPDATE → eventType u' = UPDATE →
  get (new u) "id" ≠ get (new u') "id" →
  onPostChange u' (onPostChange u s) = onPostChange u (onPostChange u' s).
Proof.
  intros Hu Hu' Hne. unfold onPostChange. rewrite Hu, Hu'.
  unfold setPosts. cbn. f_equal.
  rewrite <- !list_fmap_compose. apply list_fmap_ext. intros _ x _. cbn.
  unfold merge_update at 1 3.
  fold (id_of (merge_update (new u) x)) (id_of (merge_update (new u') x)).
  rewrite !merge_update_id. unfold id_of, merge_update.
  destruct (strict_eq (get x "id") (get (new u) "id")) eqn:E;
    destruct (strict_eq (get x "id") (get (new u') "id")) eqn:E'; try done.
  apply strict_eq_true in E, E'. congruence.
Qed.

(** X9.  An UPDATE or a DELETE whose id no cached post carries leaves the
    hook state as it is. *)
Theorem absent_id_event_is_noop (p : payload) s :
  get (new p) "id" ∉ ids (posts s) →
  get (old p) "id" ∉ ids (posts s) →
  eventType p ≠ INSERT →
  onPostChange p s = s.
Proof.
  intros Hnew Hold Hp. unfold onPostChange, setPosts.
  destruct s as [ps l e]. cbn in *.
  destruct (eventType p); [done| |]; f_equal.
  - rewrite <- (list_fmap_id ps) at 2. apply list_fmap_ext. intros k x Hx.
    unfold merge_update.
    destruct (strict_eq (get x "id") (get (new p) "id")) eqn:E; [|done].
    apply strict_eq_true in E. exfalso. apply Hnew. rewrite <- E.
    unfold ids. apply list_elem_of_fmap. exists x. split; [done|].
    by eapply list_elem_of_lookup_2.
  - apply filter_none, Forall_forall. intros x Hx. unfold keeps.
    apply negb_true_iff.
    destruct (strict_eq (get x "id") (get (old p) "id")) eqn:E; [|done].
    apply strict_eq_true in E. exfalso. apply Hold. rewrite <- E.
    unfold ids. apply list_elem_of_fmap. by exists x.
Qed.

(** X10.  [loadPosts] always ends with [loading] off.  When the backend
    accepted the query the cache is replaced by the rows fetched, each with
    its derived fields, and the error is cleared.  When the query is refused
    (a backend error, or a call that fails with a truthy value) the error is
    'Failed to load posts', never the message of the hook's own [catch], and
    the posts cached before are kept.  When the call fails with a falsy
    value the cache is emptied and no error is set. *)
Theorem loadPosts_outcome type q s :
  loading (loadPosts type q s) = false
  ∧ (∀ d c, q = Resolved (Response d None c) →
       loadPosts type q s
       = State (PostsService.with_extras <$> default [] d) false None)
  ∧ (refused q →
       loadPosts type q s = State (posts s) false (Some "Failed to load posts"))
  ∧ (falsy_fault q → loadPosts type q s = State [] false None).
Proof.
  split; [done|]. split; [|split].
  - intros d c ->. destruct type, d; reflexivity.
  - intros [(d & e & c & ->)|(e & -> & He)]%refused_cases; [by destruct type|].
    unfold loadPosts, loadPosts_end. destruct type; cbn; by rewrite He.
  - intros (e & -> & He).
    unfold loadPosts, loadPosts_end. destruct type; cbn; by rewrite He.
Qed.

Lemma filter_sublist {A} (f : A → bool) (l : list A) :
  List.filter f l `sublist_of` l.
Proof.
  induction l as [|x l IH]; [constructor|]. cbn.
  destruct (f x); by constructor.
Qed.

(** X11.  [filterPostsByType] returns the cached posts of the type asked
    for, in their order, and all of them under ['all']; filtering its own
    result again changes nothing. *)
Theorem filterPostsByType_spec t s :
  filterPostsByType all s = posts s
  ∧ filterPostsByType (of_type t) s `sublist_of` posts s
  ∧ (∀ post, post ∈ filterPostsByType (of_type t) s ↔
       post ∈ posts s ∧ get post "type" = Some (VStr t))
  ∧ filterPostsByType (of_type t)
      (State (filterPostsByType (of_type t) s) (loading s) (error s))
    = filterPostsByType (of_type t) s.
Proof.
  split; [done|]. split; [apply filter_sublist|]. split.
  - intros post. cbn. rewrite list_elem_of_In, filter_In, <- list_elem_of_In.
    by rewrite strict_eq_true.
  - cbn. rewrite filter_filter_andb. apply filter_ext_bool.
    intros x. by destruct (strict_eq _ _).
Qed.

End posts_hook.

(** * Further properties of the statistics singleton *)

Section stats_more.
Import Supabase StatsService StatsInvariant Contract.

Lemma NoDup_filter_bool {A} (f : A → bool) (l : list A) :
  NoDup l → NoDup (List.filter f l).
Proof. intros H. apply NoDup_ListNoDup, List.NoDup_filter. by apply NoDup_ListNoDup. Qed.

Lemma step_listeners_nodup t o : NoDup (listeners t) → NoDup (listeners (step t o)).
Proof.
  intros H. destruct o; cbn; try done.
  - case_bool_decide; [done|]. apply NoDup_app. split; [done|]. split.
    + intros x Hx Hx'%list_elem_of_singleton. by subst.
    + apply NoDup_singleton.
  - by apply NoDup_filter_bool.
  - unfold loadStats. by destruct q as [[dl ev]|e].
  - unfold recordDownload, record.
    destruct q as [[d [e|] c]|e]; cbn; try done. by destruct (currentStats t).
  - unfold recordEventAttendance, record.
    destruct q as [[d [e|] c]|e]; cbn; try done. by destruct (currentStats t).
  - unfold removeEventAttendance, record.
    destruct q as [[d [e|] c]|e]; cbn; try done. by destruct (currentStats t).
  - constructor.
Qed.

(** X12.  Whatever is done to the singleton, no callback is registered
    twice: a value is handed to each registered listener once. *)
Theorem listeners_registered_once ops :
  NoDup (listeners (run ops statsService))
  ∧ ∀ st, delivered (notify st (run ops statsService))
          = delivered (run ops statsService)
            ++ ((λ c, (c, st)) <$> listeners (run ops statsService)).
Proof.
  split; [|done]. unfold run.
  assert (NoDup (listeners statsService)) as H by constructor.
  revert H. generalize statsService.
  induction ops as [|o ops IH]; intros t Ht; [done|].
  cbn. apply IH. by apply step_listeners_nodup.
Qed.

Lemma filter_ne_absent (c : listener) (l : list listener) :
  c ∉ l → List.filter (λ l0, negb (bool_decide (l0 = c))) l = l.
Proof.
  induction l as [|x l IH]; intros H; [done|]. cbn.
  apply not_elem_of_cons in H as [Hx Hl].
  rewrite bool_decide_eq_false_2 by congruence. cbn. by rewrite IH.
Qed.

(** X13.  The function [subscribe] returns undoes the subscription: for a
    callback that was not registered, subscribing and then unsubscribing
    gives back the singleton as it was; subscribing a registered callback
    again changes nothing; and after unsubscribing, the callback is gone
    while every other listener stays. *)
Theorem subscribe_unsubscribe c t :
  (c ∉ listeners t → unsubscribe c (subscribe c t) = t)
  ∧ (c ∈ listeners t → subscribe c t = t)
  ∧ (c ∉ listeners (unsubscribe c t))
  ∧ (∀ c', c' ≠ c →
       (c' ∈ listeners (unsubscribe c t) ↔ c' ∈ listeners t)).
Proof.
  destruct t as [ls cur u dl snt]. unfold subscribe, unsubscribe. cbn.
  split; [|split; [|split]].
  - intros H. rewrite bool_decide_eq_false_2 by done.
    rewrite List.filter_app, filter_ne_absent by done. cbn.
    rewrite bool_decide_eq_true_2 by done. cbn. by rewrite app_nil_r.
  - intros H. by rewrite bool_decide_eq_true_2.
  - rewrite list_elem_of_In, filter_In. intros [_ H].
    by rewrite bool_decide_eq_true_2 in H.
  - intros c' Hc'. rewrite list_elem_of_In, filter_In, <- list_elem_of_In.
    rewrite bool_decide_eq_false_2 by done. cbn. tauto.
Qed.

Lemma record_without_effect r bump q t :
  ¬ accepted q ∨ currentStats t = None →
  (record r bump q t).1 = send [r] t.
Proof.
  unfold record. intros [H|H].
  - destruct q as [[d [e|] c]|e]; cbn; try done.
    exfalso. apply H. eexists. by split.
  - destruct q as [[d [e|] c]|e]; cbn; try done. by rewrite H.
Qed.

(** X14.  A record operation that the backend refuses, or that runs before
    any statistics were loaded, only sends its request: the cached counters
    and the listeners are as before and no listener is called. *)
Theorem record_without_cache_or_acceptance q t :
  ¬ accepted q ∨ currentStats t = None →
  (∀ uid fileName fileType fileId,
     (recordDownload uid fileName fileType fileId q t).1
     = send [InsertDownload uid fileId fileName fileType] t)
  ∧ (∀ uid eventId eventName,
     (recordEventAttendance uid eventId eventName q t).1
     = send [InsertEventAttendance uid eventId eventName] t)
  ∧ (∀ uid eventId,
     (removeEventAttendance uid eventId q t).1
     = send [DeleteEventAttendance uid eventId] t)
  ∧ (∀ rs, getCurrentStats (send rs t) = getCurrentStats t
           ∧ delivered (send rs t) = delivered t
           ∧ listeners (send rs t) = listeners t).
Proof.
  intros H. repeat split; intros; by apply record_without_effect.
Qed.

(** X15.  With statistics cached and both requests accepted, recording an
    attendance and then removing one brings the counters back to what they
    were; the other way round it does not when the counter is at zero, since
    the removal stops there. *)
Theorem attend_then_unattend uid eventId eventName d c d' c' t cur :
  currentStats t = Some cur →
  0 ≤ eventsAttended cur →
  let ok := Resolved (Response d None c) in
  let ok' := Resolved (Response d' None c') in
  let t1 := (recordEventAttendance uid eventId eventName ok t).1 in
  let t2 := (removeEventAttendance uid eventId ok' t1).1 in
  let t1' := (removeEventAttendance uid eventId ok' t).1 in
  let t2' := (recordEventAttendance uid eventId eventName ok t1').1 in
  getCurrentStats t2 = Some cur
  ∧ (eventsAttended cur = 0 →
     eventsAttended <$> getCurrentStats t2' = Some 1).
Proof.
  intros Hcur Hpos. cbn. rewrite Hcur. cbn. split.
  - destruct cur as [f e m]. cbn in *. do 2 f_equal. lia.
  - intros ->. done.
Qed.

(** X16.  The months of activity [loadStats] computes: never less than one,
    and from thirty days on the number of whole thirty-day periods elapsed
    since the profile was created. *)
Theorem loadStats_months uid createdAt now dl ev t st :
  (loadStats uid createdAt now (Resolved (dl, ev)) t).2 = Resolved st →
  1 ≤ monthsActive st
  ∧ (now - createdAt < month_ms → monthsActive st = 1)
  ∧ (month_ms ≤ now - createdAt →
     monthsActive st * month_ms ≤ now - createdAt
     < (monthsActive st + 1) * month_ms).
Proof.
  cbn. intros [= <-]. cbn.
  assert (0 < month_ms) as Hm by (by vm_compute).
  pose proof (Z.div_mod (now - createdAt) month_ms ltac:(lia)) as Hdm.
  pose proof (Z.mod_pos_bound (now - createdAt) month_ms Hm) as Hb.
  split; [lia|]. split.
  - intros H.
    assert ((now - createdAt) / month_ms ≤ 0).
    { apply Z.lt_succ_r. apply Z.div_lt_upper_bound; lia. }
    lia.
  - intros H.
    assert (1 ≤ (now - createdAt) / month_ms).
    { apply Z.div_le_lower_bound; lia. }
    rewrite Z.max_r by lia. nia.
Qed.

Lemma recorded_downloads n uid fileName fileType fileId d c : ∀ t cur,
  currentStats t = Some cur →
  let op := RecordDownload uid fileName fileType fileId
              (Resolved (Response d None c)) in
  let t' := run (replicate n op) t in
  getCurrentStats t'
  = Some {| filesDownloaded := filesDownloaded cur + Z.of_nat n;
            eventsAttended := eventsAttended cur;
            monthsActive := monthsActive cur |}
  ∧ listeners t' = listeners t
  ∧ length (delivered t')
    = (length (delivered t) + n * length (listeners t))%nat.
Proof.
  induction n as [|n IH]; intros t cur Hcur.
  - cbn [replicate run foldl]. unfold getCurrentStats. rewrite Hcur.
    destruct cur as [f e m]. cbn. rewrite Z.add_0_r. repeat split. lia.
  - cbn [replicate run foldl]. cbn zeta in IH. unfold run in IH.
    unfold getCurrentStats in *.
    set (t1 := step t _).
    assert (currentStats t1
            = Some {| filesDownloaded := filesDownloaded cur + 1;
                      eventsAttended := eventsAttended cur;
                      monthsActive := monthsActive cur |}) as H1
      by (unfold t1; cbn; by rewrite Hcur).
    assert (listeners t1 = listeners t) as Hl
      by (unfold t1; cbn; by rewrite Hcur).
    assert (length (delivered t1)
            = (length (delivered t) + length (listeners t))%nat) as Hd.
    { unfold t1. cbn. rewrite Hcur. cbn.
      by rewrite length_app, length_fmap. }
    destruct (IH t1 _ H1) as (Hc & Hl' & Hd').
    rewrite Hc, Hl', Hd', Hl, Hd. cbn. repeat split.
    + do 2 f_equal. lia.
    + lia.
Qed.

(** X17.  The counter of downloads keeps track: after a load that the
    backend answers with [k] downloads, [n] accepted [recordDownload]s leave
    [filesDownloaded = k + n] in the cache, with the two other counters as
    loaded, and each listener has been called [n + 1] times in all. *)
Theorem downloads_are_counted uid createdAt now k ev t n
    fileName fileType fileId d c :
  let loaded := Resolved (Response None None (Some k), ev) in
  let op := RecordDownload uid fileName fileType fileId
              (Resolved (Response d None c)) in
  let t' := run (LoadStats uid createdAt now loaded :: replicate n op) t in
  getCurrentStats t'
  = Some {| filesDownloaded := Z.of_N k + Z.of_nat n;
            eventsAttended := default 0 (Z.of_N <$> count ev);
            monthsActive := Z.max 1 ((now - createdAt) / month_ms) |}
  ∧ length (delivered t')
    = (length (delivered t) + (n + 1) * length (listeners t))%nat.
Proof.
  intros loaded op t'. subst t'.
  assert (run (LoadStats uid createdAt now loaded :: replicate n op) t
          = run (replicate n op) (step t (LoadStats uid createdAt now loaded)))
    as -> by reflexivity.
  destruct (recorded_downloads n uid fileName fileType fileId d c
              (step t (LoadStats uid createdAt now loaded))
              {| filesDownloaded := Z.of_N k;
                 eventsAttended := default 0 (Z.of_N <$> count ev);
                 monthsActive := Z.max 1 ((now - createdAt) / month_ms) |}
              eq_refl) as (Hc & _ & Hd).
  cbn zeta in Hc, Hd. fold op in Hc, Hd. rewrite Hc, Hd. split; [done|].
  cbn. rewrite length_app, length_fmap. lia.
Qed.

End stats_more.

Section stats_hook.
Import Supabase StatsService StatsHook.

(** X18.  Without a user id (none, or the empty string) the hook's three
    record wrappers throw "User ID not available" and its [loadStats] only
    switches [loading] off: the singleton is not touched and no request is
    sent. *)
Theorem stats_hook_without_user userId t :
  missing userId = true →
  (∀ fileName fileType fileId q,
     UseStats.recordDownload userId fileName fileType fileId q t
     = (t, Rejected (JsError (lit "User ID not available"))))
  ∧ (∀ eventId eventName q,
     recordEventAttendance userId eventId eventName q t
     = (t, Rejected (JsError (lit "User ID not available"))))
  ∧ (∀ eventId q,
     removeEventAttendance userId eventId q t
     = (t, Rejected (JsError (lit "User ID not available"))))
  ∧ (∀ profileCreatedAt createdAt now q h,
     loadStats userId profileCreatedAt createdAt now q h t
     = (State (stats h) false (error h), t)).
Proof.
  intros H. destruct userId as [[|c u]|]; try done; repeat split.
Qed.

End stats_hook.

(** * Properties of the string methods *)

Section text.
Import Text.

Lemma startsWith_spec s p : startsWith s p = true ↔ ∃ t, s = p ++ t.
Proof.
  revert s. induction p as [|c p IH]; intros s; cbn.
  - split; [eauto|done].
  - destruct s as [|d s]; [split; [done|by intros [t [=]]]|].
    rewrite andb_true_iff, N.eqb_eq, IH. split.
    + intros [-> [t ->]]. eauto.
    + intros [t [= -> ->]]. eauto.
Qed.

Lemma includes_spec s needle :
  includes s needle = true ↔ ∃ a b, s = a ++ needle ++ b.
Proof.
  induction s as [|d s IH]; cbn [includes]; rewrite orb_true_iff, startsWith_spec.
  - split.
    + intros [[t H]|H]; [|done]. exists [], t. done.
    + intros (a & b & H). left.
      destruct a; [by exists b|done].
  - rewrite IH. split.
    + intros [[t H]|(a & b & ->)]; [by exists [], t|].
      exists (d :: a), b. done.
    + intros ([|d' a] & b & H).
      * left. by exists b.
      * right. injection H as -> ->. eauto.
Qed.

Lemma last_segment_no_sep sep s :
  existsb (N.eqb sep) s = false → last_segment sep s = s.
Proof.
  destruct s as [|c s]; [done|]. cbn.
  intros [Hc Hs]%orb_false_iff. rewrite Hs.
  rewrite N.eqb_sym, Hc. done.
Qed.

(** The last segment holds no separator, and the string ends with it,
    right after a separator unless it is the whole string. *)
Lemma last_segment_spec sep s :
  existsb (N.eqb sep) (last_segment sep s) = false
  ∧ (last_segment sep s = s
     ∨ ∃ pre, s = pre ++ sep :: last_segment sep s).
Proof.
  induction s as [|c s [IH1 IH2]]; [split; [done|by left]|].
  cbn [last_segment]. destruct (existsb (N.eqb sep) s) eqn:E.
  - split; [done|]. right. destruct IH2 as [H|[pre H]].
    + rewrite H in IH1. congruence.
    + exists (c :: pre). cbn. by rewrite <- H.
  - destruct (c =? sep)%N eqn:Ec.
    + apply N.eqb_eq in Ec as ->. split; [done|]. right. by exists [].
    + split; [|by left]. cbn. rewrite E, N.eqb_sym, Ec. done.
Qed.

Lemma matches_nullable r : nullable r = true ↔ matches r [].
Proof.
  induction r as [| |p|r1 IH1 r2 IH2|r1 IH1 r2 IH2|r IH]; cbn.
  - split; [done|inversion 1].
  - split; [constructor|done].
  - split; [done|inversion 1].
  - rewrite andb_true_iff, IH1, IH2. split.
    + intros [H1 H2]. exact (m_cat _ _ [] [] H1 H2).
    + inversion 1 as [| |? ? s1 s2 H1 H2 E1 E2| | | |]; subst.
      apply app_eq_nil in E2 as [-> ->]. done.
  - rewrite orb_true_iff, IH1, IH2. split.
    + intros [H|H]; [by apply m_alt_l|by apply m_alt_r].
    + inversion 1; subst; auto.
  - split; [constructor|done].
Qed.

(** A non-empty string of [Star r] starts with a non-empty string of [r]. *)
Lemma matches_star_cons r c s :
  matches (Star r) (c :: s) →
  ∃ s1 s2, s = s1 ++ s2 ∧ matches r (c :: s1) ∧ matches (Star r) s2.
Proof.
  intros H. remember (Star r) as r' eqn:Er. remember (c :: s) as s' eqn:Es.
  revert c s Er Es.
  induction H as [| | | | | |r0 s1 s2 H1 _ H2 IH2]; intros a t Er Es;
    try discriminate.
  injection Er as ->. destruct s1 as [|c1 s1].
  - cbn in Es. by apply IH2.
  - cbn in Es. injection Es as -> <-. eauto.
Qed.

Lemma matches_deriv c r s : matches (deriv c r) s ↔ matches r (c :: s).
Proof.
  revert s.
  induction r as [| |p|r1 IH1 r2 IH2|r1 IH1 r2 IH2|r IH]; intros s; cbn.
  - split; inversion 1.
  - split; inversion 1.
  - destruct (p c) eqn:E; split.
    + inversion 1; subst. by constructor.
    + inversion 1; subst. constructor.
    + inversion 1.
    + inversion 1; subst. congruence.
  - assert (matches (Cat (deriv c r1) r2) s
            ↔ ∃ s1 s2, s = s1 ++ s2 ∧ matches r1 (c :: s1) ∧ matches r2 s2)
      as Hcat.
    { split.
      - inversion 1; subst. eexists _, _. split; [done|].
        split; [by apply IH1|done].
      - intros (s1 & s2 & -> & H1 & H2). constructor; [by apply IH1|done]. }
    destruct (nullable r1) eqn:En; split.
    + inversion 1 as [| | |? ? ? H1|? ? ? H2| |]; subst.
      * apply Hcat in H1 as (s1 & s2 & -> & H1 & H2).
        exact (m_cat _ _ (c :: s1) s2 H1 H2).
      * apply IH2 in H2. apply matches_nullable in En.
        exact (m_cat _ _ [] (c :: s) En H2).
    + inversion 1 as [| |? ? s1 s2 H1 H2 E1 E2| | | |]; subst.
      destruct s1 as [|c1 s1]; cbn in E2.
      * subst. apply m_alt_r. by apply IH2.
      * injection E2 as -> <-. apply m_alt_l, Hcat. eauto.
    + intros (s1 & s2 & -> & H1 & H2)%Hcat.
      exact (m_cat _ _ (c :: s1) s2 H1 H2).
    + inversion 1 as [| |? ? s1 s2 H1 H2 E1 E2| | | |]; subst.
      destruct s1 as [|c1 s1]; cbn in E2.
      * apply matches_nullable in H1. congruence.
      * injection E2 as -> <-. apply Hcat. eauto.
  - split.
    + inversion 1; subst; [apply m_alt_l; by apply IH1|apply m_alt_r; by apply IH2].
    + inversion 1; subst; [apply m_alt_l; by apply IH1|apply m_alt_r; by apply IH2].
  - split.
    + inversion 1 as [| |? ? s1 s2 H1 H2 E1 E2| | | |]; subst.
      apply IH in H1. exact (m_star_more _ (c :: s1) s2 H1 H2).
    + intros (s1 & s2 & -> & H1 & H2)%matches_star_cons.
      constructor; [by apply IH|done].
Qed.

(** The matcher decides the language of the expression. *)
Lemma test_matches r s : test r s = true ↔ matches r s.
Proof.
  unfold test. revert r. induction s as [|c s IH]; intros r; cbn.
  - apply matches_nullable.
  - rewrite IH. apply matches_deriv.
Qed.

Lemma matches_star_class p s : matches (Star (Class p)) s ↔ Forall (λ c, p c = true) s.
Proof.
  split.
  - intros H. remember (Star (Class p)) as r eqn:Er.
    induction H as [| | | | | |r0 s1 s2 H1 _ H2 IH2]; try discriminate.
    + constructor.
    + injection Er as ->. inversion H1; subst. constructor; [done|by apply IH2].
  - induction 1 as [|c s Hc _ IH]; [constructor|].
    exact (m_star_more _ [c] s (m_class p c Hc) IH).
Qed.

Lemma matches_plus_class p s :
  matches (plus (Class p)) s ↔ s ≠ [] ∧ Forall (λ c, p c = true) s.
Proof.
  unfold plus. split.
  - inversion 1 as [| |? ? s1 s2 H1 H2 E1 E2| | | |]; subst.
    inversion H1; subst. apply matches_star_class in H2.
    split; [done|]. by constructor.
  - intros [Hne H]. destruct s as [|c s]; [done|].
    apply Forall_cons in H as [Hc H].
    exact (m_cat _ _ [c] s (m_class p c Hc) (proj2 (matches_star_class p s) H)).
Qed.

End text.

(** * Properties of signing in and of the sign-in form *)

Section auth_flows.
Import AuthContext AuthFlows.

(** X19.  [login] always returns, with [loading] switched off and the user
    and session of the provider untouched.  It reports a success exactly
    when the backend answered without error and with a user; it asks for the
    email confirmation exactly when the backend's error message contains
    "Email not confirmed"; any other backend error is passed on word for
    word. *)
Theorem login_outcomes q s :
  (login q s).1 = setLoading false s
  ∧ ∃ r, (login q s).2 = Resolved r
    ∧ (success r = true ↔
         ∃ resp u, q = Resolved resp ∧ auth_error resp = None
                   ∧ data_user resp = Some u)
    ∧ (needsEmailConfirmation r = Some true ↔
         ∃ resp a b, q = Resolved resp
           ∧ auth_error resp = Some (a ++ lit "Email not confirmed" ++ b))
    ∧ (∀ resp m, q = Resolved resp → auth_error resp = Some m →
         needsEmailConfirmation r ≠ Some true → error r = Some m).
Proof.
  split; [done|]. unfold login. cbn -[lit Text.includes].
  destruct q as [[u se [m|]]|e]; cbn -[lit Text.includes].
  - destruct (Text.includes m (lit "Email not confirmed")) eqn:E.
    + eexists. split; [reflexivity|]. cbn. split; [|split].
      * split; [done|]. intros (resp & u' & [= <-] & [=] & _).
      * split; [|done]. intros _.
        apply includes_spec in E as (a & b & ->). eauto.
      * intros resp m' [= <-] [= <-] H. done.
    + eexists. split; [reflexivity|]. cbn. split; [|split].
      * split; [done|]. intros (resp & u' & [= <-] & [=] & _).
      * split; [done|]. intros (resp & a & b & [= <-] & Hm).
        assert (Text.includes m (lit "Email not confirmed") = true) as H.
        { apply includes_spec. exists a, b.
          change (Some m = Some (a ++ lit "Email not confirmed" ++ b)) in Hm.
          congruence. }
        rewrite E in H. discriminate H.
      * intros resp m' [= <-] [= <-] _. done.
  - destruct u as [u|]; eexists; (split; [reflexivity|]); cbn; (split; [|split]).
    + split; [eauto|done].
    + split; [done|]. intros (resp & a & b & [= <-] & [=]).
    + intros resp m' [= <-] [=].
    + split; [done|]. intros (resp & u' & [= <-] & _ & [=]).
    + split; [done|]. intros (resp & a & b & [= <-] & [=]).
    + intros resp m' [= <-] [=].
  - eexists. split; [reflexivity|]. cbn. split; [|split].
    + split; [done|]. intros (resp & u' & [=] & _).
    + split; [done|]. intros (resp & a & b & [=] & _).
    + intros resp m' [=].
Qed.

(** X20.  The three operations of the auth context that answer with an
    [AuthResult] always return one, and it says one thing: a success carries
    a message and no error, a failure an error and no message. *)
Theorem auth_results_coherent :
  (∀ q s, ∃ r, (login q s).2 = Resolved r ∧ coherent r)
  ∧ (∀ q s, ∃ r, (register q s).2 = Resolved r ∧ coherent r)
  ∧ (∀ q, ∃ r, resendConfirmation q = Resolved r ∧ coherent r).
Proof.
  unfold coherent. split; [|split].
  - intros q s. unfold login. cbn -[lit Text.includes].
    destruct q as [[[u|] se [m|]]|e]; cbn -[lit Text.includes];
      try destruct (Text.includes m _); eauto 10.
  - intros q s. unfold register. cbn.
    destruct q as [[[u|] se [m|]]|e]; cbn; eauto 10.
    destruct (negb (truthy (email_confirmed_at u)) && _); eauto 10.
  - intros q. unfold resendConfirmation.
    destruct q as [[m|]|e]; cbn; eauto 10.
Qed.

End auth_flows.

Section auth_screen.
Import AuthContext AuthScreen Text.

Lemma emailRegex_shape e : matches emailRegex e ↔ email_shape e.
Proof.
  unfold emailRegex, email_shape. split.
  - inversion 1 as [| |? ? l s2 Hl H2 E1 E2| | | |]; subst.
    inversion H2 as [| |? ? a s3 Ha H3 E1 E2| | | |]; subst.
    inversion Ha as [|? c Hc| | | | |]; subst. apply N.eqb_eq in Hc as <-.
    inversion H3 as [| |? ? x s4 Hx H4 E1 E2| | | |]; subst.
    inversion H4 as [| |? ? d y0 Hd Hy E1 E2| | | |]; subst.
    inversion Hd as [|? c Hc| | | | |]; subst. apply N.eqb_eq in Hc as <-.
    apply matches_plus_class in Hl as [Hl1 Hl2], Hx as [Hx1 Hx2],
      Hy as [Hy1 Hy2].
    exists l, x, y0. repeat split; try done.
    rewrite !Forall_app. done.
  - intros (l & x & y & -> & Hl & Hx & Hy & H).
    rewrite !Forall_app in H. destruct H as (Fl & Fx & Fy).
    apply m_cat; [by apply matches_plus_class|].
    apply (m_cat _ _ [64%N]); [by constructor|].
    apply m_cat; [by apply matches_plus_class|].
    apply (m_cat _ _ [46%N]); [by constructor|].
    by apply matches_plus_class.
Qed.

Lemma validateEmail_shape e : validateEmail e = true ↔ email_shape e.
Proof. unfold validateEmail. by rewrite test_matches, emailRegex_shape. Qed.

Lemma email_shape_not_blank e : email_shape e → PostsService.trim e ≠ [].
Proof.
  intros (l & x & y & -> & Hl & _ & _ & H) Ht.
  apply trim_blank in Ht. unfold PostsSearch.blank in Ht.
  destruct l as [|c l]; [done|].
  apply Forall_cons in Ht as [Hc _]. apply Forall_cons in H as [Hp _].
  unfold plain in Hp. rewrite Hc in Hp. done.
Qed.

(** X21.  The form passes [validateForm] exactly when the email has the
    shape [local@domain.tld] without white space or further at signs, the
    password has six code units or more and, when registering, the
    confirmation repeats the password and the name, trimmed, has two code
    units or more. *)
Theorem validateForm_accepts formData isLogin :
  validateForm formData isLogin = None ↔
  email_shape (email formData)
  ∧ (6 ≤ length (password formData))%nat
  ∧ (isLogin = false →
     password formData = confirmPassword formData
     ∧ (2 ≤ length (PostsService.trim (name formData)))%nat).
Proof.
  unfold validateForm. split.
  - destruct (PostsService.trim (email formData)) eqn:Et; [done|].
    destruct (validateEmail (email formData)) eqn:Ev; [|done].
    apply validateEmail_shape in Ev. change (negb true) with false. cbv iota.
    destruct (password formData) as [|c pw] eqn:Ep; [done|].
    match goal with
    | |- context [(?a <? ?b)%nat] => destruct (Nat.ltb_spec a b) as [Hlt|Hge]
    end; [done|].
    destruct isLogin; [by intros _|].
    case_bool_decide as Hc; [|done]. change (negb true) with false. cbv iota.
    destruct (PostsService.trim (name formData)) as [|k0 ks] eqn:En; [done|].
    match goal with
    | |- context [(?a <? ?b)%nat] => destruct (Nat.ltb_spec a b) as [Hlt2|Hge2]
    end; [done|].
    intros _. repeat split; try done; congruence.
  - intros (He & Hp & Hr).
    pose proof (email_shape_not_blank _ He) as Ht.
    destruct (PostsService.trim (email formData)); [done|].
    apply validateEmail_shape in He. rewrite He.
    change (negb true) with false. cbv iota.
    destruct (password formData) as [|c pw] eqn:Ep; [cbn in Hp; lia|].
    match goal with
    | |- context [(?a <? ?b)%nat] => destruct (Nat.ltb_spec a b) as [Hlt|Hge]
    end; [lia|].
    destruct isLogin; [done|]. destruct (Hr eq_refl) as [Hc Hn].
    rewrite bool_decide_eq_true_2 by congruence.
    change (negb true) with false. cbv iota.
    destruct (PostsService.trim (name formData)) as [|k0 ks];
      [cbn in Hn; lia|].
    match goal with
    | |- context [(?a <? ?b)%nat] => destruct (Nat.ltb_spec a b) as [Hlt2|Hge2]
    end; [lia|done].
Qed.

(** X22.  [handleSubmit] calls nothing when the form is not valid: it only
    shows the validation message.  With a valid form it starts with exactly
    one call, [login] or [register] according to the mode, carrying the
    email and password of the form (and for [register] the trimmed name,
    with a year only for students); the only call that may follow is the
    resending of the confirmation email, and [loading] ends switched off. *)
Theorem handleSubmit_calls a st :
  match validateForm (formData st) (isLogin st) with
  | Some msg =>
      handleSubmit a st = alert (lit "Validation Error") msg st
  | None =>
      let fd := formData st in
      let first :=
        if isLogin st then CallLogin (email fd) (password fd)
        else CallRegister (email fd) (password fd) (profileOf fd) in
      loading (handleSubmit a st) = false
      ∧ (calls (handleSubmit a st) = calls st ++ [first]
         ∨ calls (handleSubmit a st)
           = calls st ++ [first; CallResend (email fd)])
      ∧ p_name (profileOf fd) = PostsService.trim (name fd)
      ∧ (userType fd = lecturer → p_year (profileOf fd) = None)
  end.
Proof.
  unfold handleSubmit.
  destruct (validateForm (formData st) (isLogin st)); [done|].
  cbn zeta. split; [done|].
  split; [|split; [done|intros H; unfold profileOf; cbn; by rewrite H]].
  cbn [isLogin setLoading]. destruct (isLogin st).
  - destruct (loginResult a) as [r|e]; cbn; [|by left].
    destruct (success r); [by left|].
    case_bool_decide; [|by left].
    destruct (pressed a); cbn; [right|left|left]; try done.
    by rewrite <- app_assoc.
  - destruct (registerResult a) as [r|e]; cbn; [|by left].
    destruct (success r); [|by left].
    case_bool_decide.
    + destruct (pressed a); cbn; [right|left|left]; try done.
      by rewrite <- app_assoc.
    + destruct (pressed a); cbn; by left.
Qed.

End auth_screen.

(** * Further properties of the library screen *)

Section library_more.
Import Supabase ELibraryScreen Library Text.

(** X23.  Sanitizing a name keeps its length, leaves only letters, digits,
    dots and underscores, changes nothing in a name made of letters, digits
    and dots, and does nothing more when applied twice. *)
Theorem sanitize_spec (name : jsstring) :
  length (sanitize name) = length name
  ∧ Forall (λ c, in_class c = true ∨ c = 95%N) (sanitize name)
  ∧ sanitize (sanitize name) = sanitize name
  ∧ (Forall (λ c, in_class c = true) name → sanitize name = name).
Proof.
  unfold sanitize. split; [apply length_fmap|]. split; [|split].
  - apply Forall_fmap, Forall_forall. intros c _. cbn.
    destruct (in_class c) eqn:E; auto.
  - rewrite <- list_fmap_compose. apply list_fmap_ext. intros _ c _. cbn.
    destruct (in_class c) eqn:E; [by rewrite E|done].
  - intros H. rewrite <- (list_fmap_id name) at 2.
    apply Forall_fmap_ext_1. eapply Forall_impl; [exact H|].
    intros c Hc. cbn. by rewrite Hc.
Qed.

Lemma fileName_startsWith_id (f : LibraryFile) :
  startsWith (fileName f) (id f) = true.
Proof. apply startsWith_spec. unfold fileName. eauto. Qed.

Lemma same_length_prefix (s p p' : jsstring) :
  startsWith s p = true → startsWith s p' = true →
  length p = length p' → p = p'.
Proof.
  intros [t ->]%startsWith_spec [t' H]%startsWith_spec Hl.
  revert p' H Hl. induction p as [|c p IH]; intros [|c' p'] H Hl; try done.
  cbn in *. injection H as -> H. f_equal. apply IH; [done|lia].
Qed.

Lemma NoDup_fmap_same {A B} (g : A → B) (l : list A) x y :
  NoDup (g <$> l) → x ∈ l → y ∈ l → g x = g y → x = y.
Proof.
  induction l as [|z l IH]; intros Hnd Hx Hy E; [by apply elem_of_nil in Hx|].
  cbn in Hnd. apply NoDup_cons in Hnd as [Hz Hnd].
  apply elem_of_cons in Hx as [->|Hx], Hy as [->|Hy]; auto.
  - exfalso. apply Hz. rewrite E. apply list_elem_of_fmap. eauto.
  - exfalso. apply Hz. rewrite <- E. apply list_elem_of_fmap. eauto.
Qed.

(** X24.  [loadDownloadedFiles] links a local file back to the catalogue by
    testing which file id its name starts with.  When the ids of the
    catalogue all have the same length and differ from one another, the key
    derived for a file of the catalogue is linked back to that file. *)
Theorem key_resolves_to_its_file (files : list CatalogFile) (f : CatalogFile) :
  f ∈ files →
  (∀ g, g ∈ files → length (id (file g)) = length (id (file f))) →
  NoDup ((λ g, id (file g)) <$> files) →
  originalFile files (fileName (file f)) = Some f.
Proof.
  intros Hf Hlen Hnd. unfold originalFile.
  destruct (List.find _ files) as [g|] eqn:E.
  - apply find_some in E as [Hg Hs]. apply list_elem_of_In in Hg.
    f_equal. apply (NoDup_fmap_same (λ g, id (file g)) files); try done.
    eapply same_length_prefix; [exact Hs|apply fileName_startsWith_id|].
    by apply Hlen.
  - exfalso. apply list_elem_of_In in Hf.
    pose proof (find_none _ _ E f Hf) as H. cbn in H.
    by rewrite fileName_startsWith_id in H.
Qed.

Lemma set_from_go (l : list jsstring) : ∀ acc,
  NoDup acc →
  let r := foldl (λ acc x, if bool_decide (x ∈ acc) then acc else acc ++ [x])
                 acc l in
  NoDup r ∧ ∀ c, c ∈ r ↔ c ∈ acc ∨ c ∈ l.
Proof.
  induction l as [|x l IH]; intros acc Hacc; cbn.
  - split; [done|]. intros c. rewrite elem_of_nil. tauto.
  - case_bool_decide as Hx.
    + destruct (IH acc Hacc) as [H1 H2]. split; [done|].
      intros c. rewrite H2, elem_of_cons. split; [tauto|].
      intros [?|[->|?]]; auto.
    + assert (NoDup (acc ++ [x])) as Hnd.
      { apply NoDup_app. split; [done|]. split; [|apply NoDup_singleton].
        intros y Hy Hy'%list_elem_of_singleton. by subst. }
      destruct (IH _ Hnd) as [H1 H2]. split; [done|].
      intros c. rewrite H2, elem_of_app, list_elem_of_singleton, elem_of_cons.
      tauto.
Qed.

(** X25.  [getUniqueCategories] lists ['all'] first and then every category
    that some file of the catalogue has, each of them once. *)
Theorem getUniqueCategories_spec (files : list CatalogFile) :
  ∃ cats, getUniqueCategories files = lit "all" :: cats
    ∧ NoDup cats
    ∧ ∀ c, c ∈ cats ↔ ∃ f, f ∈ files ∧ category (file f) = c.
Proof.
  eexists. split; [reflexivity|].
  destruct (set_from_go ((λ f, category (file f)) <$> files) []
              NoDup_nil_2) as [H1 H2].
  split; [exact H1|]. intros c. unfold set_from. rewrite H2, elem_of_nil.
  rewrite list_elem_of_fmap. split.
  - intros [[]|(f & -> & Hf)]. eauto.
  - intros (f & Hf & <-). right. eauto.
Qed.

Section filtered.
Variable toLowerCase : jsstring → jsstring.

(** X26.  Whatever [toLowerCase] does, [getFilteredFiles] returns files of
    the catalogue in their order; under a category other than ['all'] each
    of them has that category; with ['all'] and an empty search it returns
    the whole catalogue; and a search only narrows what the category alone
    selects. *)
Theorem getFilteredFiles_spec files selectedCategory searchQuery :
  getFilteredFiles toLowerCase files selectedCategory searchQuery
    `sublist_of` files
  ∧ (selectedCategory ≠ lit "all" →
     Forall (λ f, category (file f) = selectedCategory)
       (getFilteredFiles toLowerCase files selectedCategory searchQuery))
  ∧ getFilteredFiles toLowerCase files (lit "all") [] = files
  ∧ getFilteredFiles toLowerCase files selectedCategory searchQuery
      `sublist_of` getFilteredFiles toLowerCase files selectedCategory [].
Proof.
  unfold getFilteredFiles. split; [|split; [|split]].
  - case_bool_decide; destruct searchQuery;
      repeat (try done; try apply filter_sublist;
              try (etrans; [apply filter_sublist|])).
  - intros Hne. rewrite bool_decide_eq_false_2 by done.
    assert (Forall (λ f, category (file f) = selectedCategory)
              (List.filter (λ f, bool_decide (category (file f) = selectedCategory))
                 files)) as H.
    { apply Forall_forall. intros f Hf.
      apply list_elem_of_In, filter_In in Hf as [_ Hf].
      by apply bool_decide_eq_true in Hf. }
    destruct searchQuery; [done|].
    apply Forall_forall. intros f Hf.
    apply list_elem_of_In, filter_In in Hf as [Hf _].
    rewrite Forall_forall in H. apply H. by apply list_elem_of_In.
  - done.
  - destruct searchQuery; [done|]. apply filter_sublist.
Qed.

End filtered.

End library_more.

Section upload.
Import Supabase ELibraryScreen Library Text.

Variable toLowerCase : jsstring → jsstring.
Variable toUpperCase : jsstring → jsstring.
Variable publicUrl : jsstring → jsstring.

Abbreviation upload := (uploadForm toLowerCase toUpperCase publicUrl).

(** X27.  [handleUpload] sends nothing when nobody is signed in, the title
    is blank or no file is selected.  It inserts the metadata row only after
    the storage upload of the same path was sent and answered without error,
    with the public URL of that path, the uploader's id and the trimmed
    title; and it resets the form only when both requests went through:
    otherwise title, category and selected file are kept. *)
Theorem handleUpload_two_phase user a st :
  ∃ sent, requests (upload user a st) = requests st ++ sent
  ∧ (user = None ∨ PostsService.trim (uploadTitle st) = []
     ∨ selectedFile st = None →
     sent = [] ∧ ∃ msg, upload user a st = alert (lit "Error") msg st)
  ∧ (∀ row, InsertFile row ∈ sent →
       uploadError a = Resolved None
       ∧ ∃ uid sf rest,
           user = Some uid ∧ selectedFile st = Some sf
           ∧ sent = StorageUpload (filePath uid (now a) sf) (sf_uri sf)
                      (mime sf) (sf_name sf)
                    :: InsertFile row :: rest
           ∧ f_url row = publicUrl (filePath uid (now a) sf)
           ∧ f_uploader_id row = uid
           ∧ f_name row = PostsService.trim (uploadTitle st))
  ∧ ((uploadError a = Resolved None ∧ insertError a = Resolved None)
     ∨ (uploadTitle (upload user a st) = uploadTitle st
        ∧ uploadCategory (upload user a st) = uploadCategory st
        ∧ selectedFile (upload user a st) = selectedFile st
        ∧ showUploadForm (upload user a st) = showUploadForm st)).
Proof.
  unfold uploadForm, handleUpload.
  destruct user as [uid|].
  2:{ exists []. rewrite app_nil_r. cbn [fst]. split; [done|]. split; [eauto|].
      split; [by intros row H%elem_of_nil|by right]. }
  destruct (PostsService.trim (uploadTitle st)) as [|t0 ts] eqn:Et.
  { exists []. rewrite app_nil_r. cbn [fst]. split; [done|]. split; [eauto|].
    split; [by intros row H%elem_of_nil|by right]. }
  destruct (selectedFile st) as [sf|] eqn:Es.
  2:{ exists []. rewrite app_nil_r. cbn [fst]. split; [done|]. split; [eauto|].
      split; [by intros row H%elem_of_nil|by right]. }
  cbn zeta.
  assert (∀ P : Prop, (Some uid = None ∨ t0 :: ts = [] ∨ Some sf = None) → P)
    as Hvalid by (intros P [H|[H|H]]; discriminate H).
  destruct (uploadError a) as [[m|]|e] eqn:Eu.
  - cbn [fst]. eexists. split; [reflexivity|]. split; [apply Hvalid|].
    split; [|by right].
    intros row H. apply list_elem_of_singleton in H. discriminate H.
  - destruct (insertError a) as [[m|]|e] eqn:Ei.
    + cbn [fst]. eexists. split; [cbn; by rewrite <- app_assoc|].
      split; [apply Hvalid|]. split; [|by right].
      intros row H. split; [done|].
      apply elem_of_cons in H as [H|H]; [discriminate H|].
      apply list_elem_of_singleton in H. injection H as ->.
      exists uid, sf, []. repeat split. exact Et.
    + cbn [fst]. eexists. split; [cbn; by rewrite <- !app_assoc|].
      split; [apply Hvalid|]. split; [|by left].
      intros row H. split; [done|].
      apply elem_of_cons in H as [H|H]; [discriminate H|].
      apply elem_of_cons in H as [H|H].
      2:{ apply list_elem_of_singleton in H. discriminate H. }
      injection H as ->.
      exists uid, sf, [SelectFiles]. repeat split. exact Et.
    + unfold upload_failed. destruct (message_of e) as [m|]; cbn [fst].
      all: eexists; (split; [cbn; by rewrite <- app_assoc|]).
      all: split; [apply Hvalid|]; split; [|by right].
      all: intros row H; (split; [done|]).
      all: apply elem_of_cons in H as [H|H]; [discriminate H|].
      all: apply list_elem_of_singleton in H; injection H as ->.
      all: exists uid, sf, []; repeat split; exact Et.
  - unfold upload_failed. destruct (message_of e) as [m|]; cbn [fst].
    all: eexists; (split; [reflexivity|]); split; [apply Hvalid|].
    all: split; [|by right].
    all: intros row H; apply list_elem_of_singleton in H; discriminate H.
Qed.

End upload.

Section download_more.
Import Supabase ELibraryScreen Contract.

Variable documentDirectory : jsstring.
Variable userId : option jsstring.

Abbreviation handle' := (handleDownload documentDirectory userId).

Lemma onPressDownload_sets file a w :
  let w' := onPressDownload documentDirectory userId file a w in
  downloadingFiles w' = (downloadingFiles w ∪ {[ id file ]}) ∖ {[ id file ]}
  ∧ (downloadedFiles w' = downloadedFiles w
     ∨ downloadedFiles w' = downloadedFiles w ∪ {[ fileName file ]}).
Proof.
  unfold onPressDownload.
  destruct (dirInfo a) as [[|]|e]; cbn; auto;
    try (destruct (madeDir a) as [[]|e]; cbn; auto);
    destruct (downloadResult a) as [[status bytes]|e']; cbn; auto;
    destruct (status =? 200); cbn; auto;
    destruct (UseStats.recordDownload _ _ _ _ _ _) as [t [r|e']]; cbn; auto.
Qed.

Lemma add_then_remove (X : gset jsstring) i : (X ∪ {[ i ]}) ∖ {[ i ]} = X ∖ {[ i ]}.
Proof.
  apply set_eq. intros y.
  rewrite !elem_of_difference, elem_of_union. tauto.
Qed.

(** X28.  A [handleDownload] of a file already downloaded, or whose dialog
    is not confirmed, shows one alert and does nothing else.  A confirmed
    one ends, whatever happened, with the file no longer marked as
    downloading.  In every case the downloaded-set only grows, by the key
    of this file at most. *)
Theorem handleDownload_marks file a w :
  (fileName file ∈ downloadedFiles w ∨ pressed a ≠ Download →
   ∃ title message, handle' file a w = alert title message w)
  ∧ (fileName file ∉ downloadedFiles w → pressed a = Download →
     downloadingFiles (handle' file a w) = downloadingFiles w ∖ {[ id file ]})
  ∧ downloadedFiles w ⊆ downloadedFiles (handle' file a w)
  ∧ downloadedFiles (handle' file a w) ⊆ downloadedFiles w ∪ {[ fileName file ]}.
Proof.
  unfold handleDownload. split; [|split].
  - intros [H|H].
    + rewrite bool_decide_eq_true_2 by done. eauto.
    + case_bool_decide; [eauto|]. destruct (pressed a); eauto. done.
  - intros Hnew ->. rewrite bool_decide_eq_false_2 by done.
    match goal with
    | |- context [onPressDownload _ _ file a ?w0] =>
        destruct (onPressDownload_sets file a w0) as [-> _]
    end.
    apply add_then_remove.
  - assert (downloadedFiles w ⊆ downloadedFiles w ∪ {[ fileName file ]})
      as Hsub by apply union_subseteq_l.
    case_bool_decide; [by split|].
    destruct (pressed a); try (by split).
    match goal with
    | |- context [onPressDownload _ _ file a ?w0] =>
        destruct (onPressDownload_sets file a w0) as [_ [-> | ->]]
    end; by split.
Qed.

(** X29.  A confirmed download that answers 200 for a signed-in user with
    statistics cached: when the backend accepts the record of the download,
    one insert into [downloads] is sent, the cached [filesDownloaded] goes
    up by one and the screen reports the success; when it refuses, the
    counters stay, the screen reports "Failed to download file", and yet the
    file is in the downloaded-set and on disk. *)
Theorem download_is_counted file a w bytes c0 uid cur :
  fileName file ∉ downloadedFiles w →
  pressed a = Download →
  directory_ready a →
  downloadResult a = Resolved (200, bytes) →
  userId = Some (c0 :: uid) →
  StatsService.currentStats (stats w) = Some cur →
  let w' := handle' file a w in
  StatsService.sent (stats w')
  = StatsService.sent (stats w)
    ++ [StatsService.InsertDownload (c0 :: uid) (Some (id file)) (name file)
          (type file)]
  ∧ fileName file ∈ downloadedFiles w'
  ∧ disk w' !! (downloadDir documentDirectory ++ fileName file) = Some bytes
  ∧ (accepted (insertAnswer a) →
     StatsService.getCurrentStats (stats w')
     = Some {| StatsService.filesDownloaded := StatsService.filesDownloaded cur + 1;
               StatsService.eventsAttended := StatsService.eventsAttended cur;
               StatsService.monthsActive := StatsService.monthsActive cur |}
     ∧ last (alerts w')
       = Some (lit "Success", lit "File downloaded for offline access!"))
  ∧ (¬ accepted (insertAnswer a) →
     StatsService.getCurrentStats (stats w') = Some cur
     ∧ last (alerts w') = Some (lit "Error", lit "Failed to download file")).
Proof.
  intros Hnew Hp Hdir Hdl Hu Hcur w'. subst w'.
  unfold handleDownload. rewrite bool_decide_eq_false_2 by done. rewrite Hp.
  unfold onPressDownload, UseStats.recordDownload. rewrite Hu.
  assert (∀ x : gset jsstring, fileName file ∈ x ∪ {[ fileName file ]}) as Hin.
  { intros x. apply elem_of_union. right. by apply elem_of_singleton. }
  destruct Hdir as [-> | [-> ->]]; rewrite Hdl; cbn -[lit];
    unfold StatsService.recordDownload, StatsService.record;
    destruct (insertAnswer a) as [[d [e|] c]|e] eqn:Ei; cbn -[lit];
    rewrite ?Hcur; cbn -[lit];
    (split; [done|]); (split; [apply Hin|]);
    (split; [by rewrite lookup_insert_eq|]);
    (split;
     [intros (ans & Ha & He); try discriminate Ha;
      injection Ha as <-; cbn in He; try discriminate He;
      by rewrite last_snoc
     |intros Hna; try (exfalso; apply Hna; eexists; by split);
      by rewrite last_snoc]).
Qed.

End download_more.

Section feed_screen.
Import Supabase FeedScreen Contract.

(** X30.  [handleCreatePost] rejects a blank title or content, and a
    signed-out user, before anything is handed to [createPost]: it shows the
    message and changes nothing else.  Otherwise it submits the post once,
    with title and content trimmed and the user as author, and ends with
    [creatingPost] off.  When the backend accepts, the post returned (with
    its derived fields) is put first in the cache, the form is reset and the
    modal closed.  When the request is refused (a backend error, or a call
    that fails with a truthy value), the cache and the form are kept and the
    failure is shown.  When the call fails with a falsy value, the screen
    reports a success and resets the form although the cache is as it
    was. *)
Theorem handleCreatePost_spec user q st :
  (PostsService.trim (title (newPost st)) = []
   ∨ PostsService.trim (content (newPost st)) = [] →
   handleCreatePost user q st
   = alert (lit "Error") (lit "Please fill in both title and content.") st)
  ∧ (PostsService.trim (title (newPost st)) ≠ [] →
     PostsService.trim (content (newPost st)) ≠ [] →
     match user with
     | None =>
         handleCreatePost user q st
         = alert (lit "Error") (lit "You must be logged in to create a post.") st
     | Some uid =>
         let st' := handleCreatePost user q st in
         submitted st' = submitted st ++ [postData (newPost st) uid]
         ∧ creatingPost st' = false
         ∧ (∀ d c, q = Resolved (Response d None c) →
              UsePosts.posts (hook st')
              = PostsService.with_extras (default ∅ d)
                :: UsePosts.posts (hook st)
              ∧ newPost st' = {| title := []; content := [];
                                 type := lit "discussion" |}
              ∧ showCreateModal st' = false
              ∧ last (alerts st')
                = Some (lit "Success", lit "Post created successfully!"))
         ∧ (refused q →
              hook st' = hook st ∧ newPost st' = newPost st
              ∧ showCreateModal st' = showCreateModal st
              ∧ last (alerts st') = Some (lit "Error", lit "Failed to create post"))
         ∧ (falsy_fault q →
              hook st' = hook st
              ∧ newPost st' = {| title := []; content := [];
                                 type := lit "discussion" |}
              ∧ showCreateModal st' = false
              ∧ last (alerts st')
                = Some (lit "Success", lit "Post created successfully!"))
     end).
Proof.
  unfold handleCreatePost. split.
  - intros [-> | H]; [done|].
    rewrite H. by destruct (PostsService.trim (title (newPost st))).
  - intros Ht Hc.
    destruct (PostsService.trim (title (newPost st))) as [|t0 ts]; [done|].
    destruct (PostsService.trim (content (newPost st))) as [|c0 cs]; [done|].
    destruct user as [uid|]; [|done]. cbn zeta.
    destruct q as [[d [e|] c]|e].
    + cbn -[lit postData].
      split; [done|]. split; [done|]. split; [|split].
      * intros d' c' H. discriminate H.
      * intros _. repeat split. by rewrite last_snoc.
      * intros (e' & H & _). discriminate H.
    + cbn -[lit postData].
      split; [done|]. split; [done|]. split; [|split].
      * intros d' c' H. injection H as <- <-.
        destruct d; cbn -[lit]; repeat split; by rewrite last_snoc.
      * intros [(a & e' & [= <-] & H)|(e' & H & _)]; discriminate H.
      * intros (e' & H & _). discriminate H.
    + unfold UsePosts.createPost, PostsService.createPost,
        PostsService.mutate_single.
      cbn -[lit postData].
      destruct (thrown_to_boolean e) eqn:E; cbn -[lit postData].
      * split; [done|]. split; [done|]. split; [|split].
        -- intros d' c' H. discriminate H.
        -- intros _. repeat split. by rewrite last_snoc.
        -- intros (e' & [= <-] & H). congruence.
      * split; [done|]. split; [done|]. split; [|split].
        -- intros d' c' H. discriminate H.
        -- intros [(a & e' & H & _)|(e' & [= <-] & H)];
             [discriminate H|congruence].
        -- intros _. repeat split. by rewrite last_snoc.
Qed.

End feed_screen.

(** * The further properties at work on concrete inputs *)

Section more_examples.
Import Js Supabase Sample Fixtures.

Example validateEmail_examples :
  AuthScreen.validateEmail (lit "a@x.com") = true
  ∧ AuthScreen.validateEmail (lit "a@x") = false
  ∧ AuthScreen.validateEmail (lit "a b@x.com") = false
  ∧ AuthScreen.validateEmail (lit "a@@x.com") = false
  ∧ AuthScreen.validateEmail (lit "a@x.") = false.
Proof. repeat split; vm_compute; reflexivity. Qed.

Example last_segment_examples :
  Text.last_segment 46 (lit "week1.notes.pdf") = lit "pdf"
  ∧ Text.last_segment 46 (lit "README") = lit "README"
  ∧ Text.last_segment 46 (lit "archive.") = [].
Proof. repeat split. Qed.

Lemma searchPosts_blank_query_witness :
  PostsSearch.blank (lit "  ")
  ∧ PostsService.searchPosts (lit "  ") (answered [post "p1" "event"])
      offline offline offline
    = PostsService.getAllPosts (answered [post "p1" "event"]).
Proof.
  assert (PostsSearch.blank (lit "  ")) as H by (repeat constructor).
  split; [exact H|]. by apply searchPosts_blank_query.
Defined.

Lemma getPostStats_partition_witness :
  let d := [post "p1" "event"; post "p2" "help"; post "p3" "event"] in
  Forall PostsSearch.typed d
  ∧ ∃ st, PostsService.getPostStats (Resolved (Response (Some d) None None))
          = Resolved (PostsService.Result (Some st) None)
          ∧ PostsService.total_posts st = length d
          ∧ PostsService.total_posts st
            = (PostsService.announcements st + PostsService.events st
               + PostsService.discussions st + PostsService.help_requests st)%nat.
Proof.
  intros d.
  assert (Forall PostsSearch.typed d) as H.
  { repeat constructor.
    - exists "event". split; [|reflexivity].
      apply elem_of_cons. right. apply elem_of_cons. by left.
    - exists "help". split; [|reflexivity].
      do 3 (apply elem_of_cons; right). apply elem_of_cons. by left.
    - exists "event". split; [|reflexivity].
      apply elem_of_cons. right. apply elem_of_cons. by left. }
  split; [exact H|]. by apply getPostStats_partition.
Defined.

Lemma searchPosts_no_duplicates_witness :
  let q := answered [post "p1" "event"] in
  let qProfiles := answered [post "u1" "profile"] in
  let qAuthors := answered [post "p1" "event"; post "p2" "help"] in
  let d := PostsService.with_extras <$> [post "p1" "event"; post "p2" "help"] in
  PostsSearch.distinct_rows offline
  ∧ PostsSearch.distinct_rows q
  ∧ PostsService.searchPosts (lit "ada") offline q qProfiles qAuthors
    = Resolved (PostsService.Result (Some d) None)
  ∧ NoDup (PostsCache.ids d).
Proof.
  intros q qProfiles qAuthors d.
  assert (PostsSearch.distinct_rows offline) as H1
    by (intros r d0 H; discriminate H).
  assert (PostsSearch.distinct_rows q) as H2.
  { intros r d0 H. injection H as <-. cbn. intros H. injection H as <-.
    compute_done. }
  assert (PostsService.searchPosts (lit "ada") offline q qProfiles qAuthors
          = Resolved (PostsService.Result (Some d) None)) as H3
    by (vm_compute; reflexivity).
  split; [exact H1|]. split; [exact H2|]. split; [exact H3|].
  exact (searchPosts_no_duplicates _ _ _ _ _ _ d H1 H2 H3 eq_refl).
Defined.

Lemma create_then_delete_witness :
  let s := UsePosts.State [post "p1" "event"] false None in
  let created := post "p9" "discussion" in
  Js.get created "id" = Some (VStr (lit "p9"))
  ∧ (Some (VStr (lit "p9")) ∉ PostsCache.ids (UsePosts.posts s))
  ∧ UsePosts.posts
      (UsePosts.deletePost (lit "p9") (lit "u1")
         (Resolved (Response None None None))
         (UsePosts.createPost created
            (Resolved (Response (Some created) None None)) s).1).1
    = UsePosts.posts s.
Proof.
  intros s created.
  assert (Js.get created "id" = Some (VStr (lit "p9"))) as H1 by reflexivity.
  assert (Some (VStr (lit "p9")) ∉ PostsCache.ids (UsePosts.posts s)) as H2
    by compute_done.
  split; [exact H1|]. split; [exact H2|].
  exact (proj2 (create_then_delete s created (lit "u1") created (lit "p9")
                  None None H1 H2)).
Defined.

Lemma updates_of_distinct_ids_commute_witness :
  let u := UsePosts.Payload UsePosts.UPDATE
             {[ "id" := VStr (lit "p1"); "title" := VStr (lit "A") ]} ∅ in
  let u' := UsePosts.Payload UsePosts.UPDATE
              {[ "id" := VStr (lit "p2"); "title" := VStr (lit "B") ]} ∅ in
  let s := UsePosts.State [post "p1" "event"; post "p2" "help"] false None in
  Js.get (UsePosts.new u) "id" ≠ Js.get (UsePosts.new u') "id"
  ∧ UsePosts.onPostChange u' (UsePosts.onPostChange u s)
    = UsePosts.onPostChange u (UsePosts.onPostChange u' s).
Proof.
  intros u u' s.
  assert (Js.get (UsePosts.new u) "id" ≠ Js.get (UsePosts.new u') "id") as H
    by compute_done.
  split; [exact H|].
  exact (updates_of_distinct_ids_commute u u' s eq_refl eq_refl H).
Defined.

Lemma absent_id_event_is_noop_witness :
  let p := UsePosts.Payload UsePosts.DELETE ∅ {[ "id" := VStr (lit "p7") ]} in
  let s := UsePosts.State [post "p1" "event"; post "p2" "help"] false None in
  (Js.get (UsePosts.new p) "id" ∉ PostsCache.ids (UsePosts.posts s))
  ∧ (Js.get (UsePosts.old p) "id" ∉ PostsCache.ids (UsePosts.posts s))
  ∧ UsePosts.onPostChange p s = s.
Proof.
  intros p s.
  assert (Js.get (UsePosts.new p) "id" ∉ PostsCache.ids (UsePosts.posts s))
    as H1 by compute_done.
  assert (Js.get (UsePosts.old p) "id" ∉ PostsCache.ids (UsePosts.posts s))
    as H2 by compute_done.
  split; [exact H1|]. split; [exact H2|].
  apply absent_id_event_is_noop; [exact H1|exact H2|discriminate].
Defined.

Lemma record_without_cache_or_acceptance_witness :
  let q : await (response unit) := Rejected (JsError (lit "Network request failed")) in
  (¬ Contract.accepted q ∨ StatsService.currentStats (cached 2 3 1) = None)
  ∧ (StatsService.recordDownload (lit "u1") (lit "a.pdf") (lit "pdf") None q
       (cached 2 3 1)).1
    = StatsService.send
        [StatsService.InsertDownload (lit "u1") None (lit "a.pdf") (lit "pdf")]
        (cached 2 3 1).
Proof.
  intros q.
  assert (¬ Contract.accepted q ∨ StatsService.currentStats (cached 2 3 1) = None)
    as H by (left; intros (ans & Ha & _); discriminate Ha).
  split; [exact H|].
  exact (proj1 (record_without_cache_or_acceptance q (cached 2 3 1) H)
           (lit "u1") (lit "a.pdf") (lit "pdf") None).
Defined.

Lemma attend_then_unattend_witness :
  let ok : await (response unit) := Resolved (Response None None None) in
  StatsService.currentStats (cached 2 3 1) = Some (StatsService.Stats 2 3 1)
  ∧ 0 ≤ StatsService.eventsAttended (StatsService.Stats 2 3 1)
  ∧ StatsService.getCurrentStats
      (StatsService.removeEventAttendance (lit "u1") (lit "e1") ok
         (StatsService.recordEventAttendance (lit "u1") (lit "e1") (lit "Fair")
            ok (cached 2 3 1)).1).1
    = Some (StatsService.Stats 2 3 1).
Proof.
  intros ok.
  assert (StatsService.currentStats (cached 2 3 1)
          = Some (StatsService.Stats 2 3 1)) as H1 by reflexivity.
  assert (0 ≤ StatsService.eventsAttended (StatsService.Stats 2 3 1)) as H2
    by (cbn; lia).
  split; [exact H1|]. split; [exact H2|].
  exact (proj1 (attend_then_unattend (lit "u1") (lit "e1") (lit "Fair")
                  None None None None (cached 2 3 1) _ H1 H2)).
Defined.

Lemma loadStats_months_witness :
  let q := Resolved (Response None None (Some 4%N), Response None None None) in
  let st := StatsService.Stats 4 0 3 in
  (StatsService.loadStats (lit "u1") 0 (100 * 86400000) q
     StatsService.statsService).2 = Resolved st
  ∧ 1 ≤ StatsService.monthsActive st
  ∧ StatsService.monthsActive st * StatsService.month_ms ≤ 100 * 86400000 - 0
    < (StatsService.monthsActive st + 1) * StatsService.month_ms.
Proof.
  intros q st.
  assert ((StatsService.loadStats (lit "u1") 0 (100 * 86400000) q
             StatsService.statsService).2 = Resolved st) as H by reflexivity.
  split; [exact H|].
  destruct (loadStats_months (lit "u1") 0 (100 * 86400000)
              (Response None None (Some 4%N)) (Response None None None)
              StatsService.statsService st H) as (H1 & _ & H3).
  split; [exact H1|]. apply H3. by vm_compute.
Defined.

Lemma stats_hook_without_user_witness :
  StatsHook.missing (Some []) = true
  ∧ StatsHook.recordEventAttendance (Some []) (lit "e1") (lit "Fair")
      (Resolved (Response None None None)) (cached 2 3 1)
    = (cached 2 3 1, Rejected (JsError (lit "User ID not available"))).
Proof.
  assert (StatsHook.missing (Some []) = true) as H by reflexivity.
  split; [exact H|].
  destruct (stats_hook_without_user (Some []) (cached 2 3 1) H) as (_ & H2 & _).
  apply H2.
Defined.

Lemma key_resolves_to_its_file_witness :
  let files := [catalogued "f1"; catalogued "f2"] in
  catalogued "f2" ∈ files
  ∧ NoDup ((λ g, ELibraryScreen.id (Library.file g)) <$> files)
  ∧ Library.originalFile files
      (ELibraryScreen.fileName (Library.file (catalogued "f2")))
    = Some (catalogued "f2").
Proof.
  intros files.
  assert (catalogued "f2" ∈ files) as H1
    by (apply elem_of_cons; right; apply elem_of_cons; by left).
  assert (∀ g, g ∈ files →
            length (ELibraryScreen.id (Library.file g))
            = length (ELibraryScreen.id (Library.file (catalogued "f2"))))
    as H2.
  { intros g Hg. apply elem_of_cons in Hg as [->|Hg]; [reflexivity|].
    apply elem_of_cons in Hg as [->|Hg]; [reflexivity|].
    by apply elem_of_nil in Hg. }
  assert (NoDup ((λ g, ELibraryScreen.id (Library.file g)) <$> files)) as H3
    by compute_done.
  split; [exact H1|]. split; [exact H3|].
  exact (key_resolves_to_its_file files (catalogued "f2") H1 H2 H3).
Defined.

Lemma download_is_counted_witness :
  let dir := lit "file:///data/" in
  let w := {| ELibraryScreen.downloadedFiles := ∅;
              ELibraryScreen.downloadingFiles := ∅;
              ELibraryScreen.alerts := [];
              ELibraryScreen.disk := ∅;
              ELibraryScreen.transfers := [];
              ELibraryScreen.stats := cached 2 3 1 |} in
  let w' := ELibraryScreen.handleDownload dir (Some (lit "u1")) (notes "f1")
              (transfer_answers 200) w in
  Contract.accepted (ELibraryScreen.insertAnswer (transfer_answers 200))
  ∧ StatsService.getCurrentStats (ELibraryScreen.stats w')
    = Some (StatsService.Stats 3 3 1)
  ∧ StatsService.sent (ELibraryScreen.stats w')
    = [StatsService.InsertDownload (lit "u1") (Some (lit "f1"))
         (lit "Week 1: notes.pdf") (lit "application/pdf")].
Proof.
  intros dir w w'.
  assert (Contract.accepted (ELibraryScreen.insertAnswer (transfer_answers 200)))
    as Ha by (eexists; by split).
  split; [exact Ha|].
  destruct (download_is_counted dir (Some (lit "u1")) (notes "f1")
              (transfer_answers 200) w [37; 80; 68; 70]%N 117%N [49%N]
              (StatsService.Stats 2 3 1))
    as (Hs & _ & _ & Hok & _).
  - apply not_elem_of_empty.
  - reflexivity.
  - right. split; reflexivity.
  - reflexivity.
  - reflexivity.
  - reflexivity.
  - destruct (Hok Ha) as [Hc _]. fold w' in Hs, Hc. split; [exact Hc|exact Hs].
Defined.

(** A session across a sign-out: a listener subscribes, two downloads are
    loaded for u1, u1 signs out.  The counters of u1 can still be read, and
    the load for the next user reaches the listener of the first. *)
Example logout_session :
  let counts := Resolved (Response None None (Some 2%N), Response None None None) in
  let t :=
    StatsService.run
      [StatsService.Subscribe 7%nat;
       StatsService.LoadStats (lit "u1") 0 1000 counts]
      StatsService.statsService in
  let w := SignOut.Process
             {| AuthContext.user := None; AuthContext.session := None;
                AuthContext.loading := false |} t in
  let w' := SignOut.onSignedOut (SignOut.logout (Resolved None) w).1 in
  StatsService.getCurrentStats (SignOut.stats w')
  = Some (StatsService.Stats 2 0 1)
  ∧ StatsService.listeners (SignOut.stats w') = [7%nat]
  ∧ StatsInvariant.delivered_since (SignOut.stats w')
      (StatsService.loadStats (lit "u2") 0 1000
         (Resolved (Response None None (Some 5%N), Response None None None))
         (SignOut.stats w')).1
    = [(7%nat, StatsService.Stats 5 0 1)].
Proof. repeat split. Qed.

(** A query that fails with [undefined]: the service returns
    [{ data: null, error: undefined }], [loadPosts] empties the cache without
    an error, and [createPost] reports a success. *)
Example falsy_fault_is_not_seen :
  let q {A} : await (response A) := Rejected (JsValue None) in
  let s := UsePosts.State [post "p1" "event"] false None in
  PostsService.getAllPosts q
  = Resolved (PostsService.Result None (Some (PostsService.ECaught (JsValue None))))
  ∧ UsePosts.loadPosts UsePosts.all q s = UsePosts.State [] false None
  ∧ UsePosts.createPost (post "p2" "event") q s
    = (s, UsePosts.Mutation true None)
  ∧ UsePosts.deletePost (lit "p1") (lit "u1") q s
    = (s, UsePosts.Mutation false (Some "Failed to delete post")).
Proof. repeat split. Qed.

End more_examples.
